(** * storyblok-richtext: the rich-text renderer and the image URL builder

    A shallow embedding of [src/images-optimization.ts]: the function
    [optimizeImage] and the closure [RitchText] with its resolver registry,
    [renderNode] and [render].

    JavaScript strings are modelled as [string]; every character the code
    inspects is ASCII.  JavaScript numbers are modelled as integers [Z]
    printed in decimal.  Objects used as key/value bags ([attrs], [filters])
    are association lists in insertion order, which is the order
    [Object.keys] enumerates them in.  The call stack is unbounded: a
    recursion is cut only by the fuel of [render]. *)

From Stdlib Require Import String Ascii List ZArith Lia Bool Arith DecimalString.
From Stdlib Require Import Permutation.
Import ListNotations.
Local Open Scope list_scope.
Local Open Scope string_scope.
Set Warnings "-register-all".

(** ** JavaScript values and string helpers *)

Module Js.

(** The primitive values an [attrs] or [filters] bag can hold. *)
Inductive value : Type :=
| VStr (s : string)
| VNum (n : Z)
| VBool (b : bool)
| VNull.

(** One double-quote character. *)
Definition dquote : string := String "034"%char EmptyString.

(** [s] between double quotes. *)
Definition quoted (s : string) : string := dquote ++ s ++ dquote.

(** [String(n)] for an integer. *)
Definition num_to_string (n : Z) : string :=
  NilZero.string_of_int (Z.to_int n).

(** Stringification inside a template literal, [`${v}`]. *)
Definition to_string (v : value) : string :=
  match v with
  | VStr s => s
  | VNum n => num_to_string n
  | VBool true => "true"
  | VBool false => "false"
  | VNull => "null"
  end.

(** [`${x}`] for a property that may be missing. *)
Definition opt_to_string (o : option value) : string :=
  match o with
  | Some v => to_string v
  | None => "undefined"
  end.

Definition opt_string (o : option string) : string :=
  match o with
  | Some s => s
  | None => "undefined"
  end.

(** Truthiness, as tested by [if (v)] and [v ? a : b]. *)
Definition truthy (v : value) : bool :=
  match v with
  | VStr s => negb (String.eqb s EmptyString)
  | VNum n => negb (Z.eqb n 0)
  | VBool b => b
  | VNull => false
  end.

Definition opt_truthy (o : option value) : bool :=
  match o with
  | Some v => truthy v
  | None => false
  end.

(** Strict equality [===] on primitives. *)
Definition strict_eqb (a b : value) : bool :=
  match a, b with
  | VStr s, VStr t => String.eqb s t
  | VNum n, VNum m => Z.eqb n m
  | VBool x, VBool y => Bool.eqb x y
  | VNull, VNull => true
  | _, _ => false
  end.

(** [arr.includes(x)] for a property that may be missing. *)
Definition includes (arr : list value) (x : option value) : bool :=
  match x with
  | Some v => existsb (strict_eqb v) arr
  | None => false
  end.

(** An object used as a bag of properties, in insertion order. *)
Definition object : Type := list (string * value).

Fixpoint get (o : object) (k : string) : option value :=
  match o with
  | [] => None
  | (k', v) :: rest => if String.eqb k' k then Some v else get rest k
  end.

Definition keys (o : object) : list string := map fst o.

(** [arr.join(sep)]. *)
Fixpoint join (sep : string) (l : list string) : string :=
  match l with
  | [] => EmptyString
  | [x] => x
  | x :: rest => x ++ sep ++ join sep rest
  end.

(** [arr.join('')]. *)
Definition concat_all (l : list string) : string := join EmptyString l.

(** [s.replace(/c/g, rep)] for a one-character pattern [c]. *)
Fixpoint replace_all (c : ascii) (rep : string) (s : string) : string :=
  match s with
  | EmptyString => EmptyString
  | String a rest =>
      if Ascii.eqb a c then rep ++ replace_all c rep rest
      else String a (replace_all c rep rest)
  end.

End Js.

(** ** The image URL builder *)

Module Image.
Import Js.

(** Modelled from the spec: [Partial<ImageOptimizationOptions>], whose
    declaration is in [./types]; every field may be missing.  [filters] is
    kept as a bag so that keys the code never reads can be present. *)
Record options : Type := mkOptions {
  width : option Z;
  height : option Z;
  loading : option string;
  class : option string;
  filters : option object
}.

(** The second argument: missing, a boolean, or an options object. *)
Inductive options_arg : Type :=
| OUndefined
| OBool (b : bool)
| OObject (o : options).

Record result : Type := mkResult {
  src : string;
  attrs : object
}.

Definition num_truthy (o : option Z) : bool :=
  match o with Some n => negb (Z.eqb n 0) | None => false end.

Definition str_truthy (o : option string) : bool :=
  match o with Some s => negb (String.eqb s EmptyString) | None => false end.

(** [!options] *)
Definition arg_falsy (a : options_arg) : bool :=
  match a with
  | OUndefined => true
  | OBool b => negb b
  | OObject _ => false
  end.

(** [arr.push(x)] guarded by [cond]. *)
Definition push_if (cond : bool) (x : string) (arr : list string) : list string :=
  if cond then (arr ++ [x])%list else arr.

Definition call (name : string) (arg : string) : string :=
  name ++ "(" ++ arg ++ ")".

(** Lines 16-27: the pushes onto [filterParams], in source order. *)
Definition filterParams_of (f : object) : list string :=
  let blur := get f "blur" in
  let brightness := get f "brightness" in
  let fill := get f "fill" in
  let format := get f "format" in
  let grayscale := get f "grayscale" in
  let quality := get f "quality" in
  let rotate := get f "rotate" in
  let p := [] in
  let p := push_if (opt_truthy blur) (call "blur" (opt_to_string blur)) p in
  let p := push_if (opt_truthy quality) (call "quality" (opt_to_string quality)) p in
  let p := push_if (opt_truthy brightness) (call "brightness" (opt_to_string brightness)) p in
  let p := push_if (opt_truthy fill) (call "fill" (opt_to_string fill)) p in
  let p := push_if (opt_truthy grayscale) "grayscale()" p in
  let p := push_if (opt_truthy rotate && includes [VNum 90; VNum 180; VNum 270] rotate)
                   (call "rotate" (opt_to_string rotate)) p in
  let p := push_if (opt_truthy format && includes [VStr "webp"; VStr "png"; VStr "jpeg"] format)
                   (call "format" (opt_to_string format)) p in
  p.

(** [filterParams] after the [typeof options === 'object'] block. *)
Definition filterParams (a : options_arg) : list string :=
  match a with
  | OObject o =>
      match filters o with
      | Some f => filterParams_of f
      | None => []
      end
  | _ => []
  end.

(** [w] and [h] after the block: assigned only from a truthy field. *)
Definition dim (field : option Z) : Z :=
  match field with
  | Some n => if Z.eqb n 0 then 0 else n
  | None => 0
  end.

Definition w_of (a : options_arg) : Z :=
  match a with OObject o => dim (width o) | _ => 0 end.

Definition h_of (a : options_arg) : Z :=
  match a with OObject o => dim (height o) | _ => 0 end.

Definition set_if (cond : bool) (k : string) (v : value) (o : object) : object :=
  if cond then (o ++ [(k, v)])%list else o.

(** Lines 10-13: the entries of [attrs], in assignment order. *)
Definition attrs_of (a : options_arg) : object :=
  match a with
  | OObject o =>
      let at0 := [] in
      let at1 := match width o with
                 | Some n => set_if (num_truthy (width o)) "width" (VNum n) at0
                 | None => at0 end in
      let at2 := match height o with
                 | Some n => set_if (num_truthy (height o)) "height" (VNum n) at1
                 | None => at1 end in
      let at3 := match loading o with
                 | Some s => set_if (str_truthy (loading o)
                                     && includes [VStr "lazy"; VStr "eager"] (Some (VStr s)))
                                    "loading" (VStr s) at2
                 | None => at2 end in
      let at4 := match class o with
                 | Some s => set_if (str_truthy (class o)) "class" (VStr s) at3
                 | None => at3 end in
      at4
  | _ => []
  end.

(** Lines 3-44. *)
Definition optimizeImage (base : string) (a : options_arg) : result :=
  if arg_falsy a then mkResult base []
  else
    let w := w_of a in
    let h := h_of a in
    let params := filterParams a in
    let resultSrc := base ++ "/m/" in
    let resultSrc :=
      if (0 <? w)%Z && (0 <? h)%Z
      then resultSrc ++ num_to_string w ++ "x" ++ num_to_string h
      else resultSrc in
    let resultSrc :=
      if (0 <? length params)%nat
      then resultSrc ++ "filters:" ++ join ":" params
      else resultSrc in
    mkResult resultSrc (attrs_of a).

End Image.

(** ** Computations that log, throw, or never return *)

Module Run.

(** What [console.error] and [console.warn] were called with. *)
Inductive diagnostic : Type :=
| ConsoleError (args : list string)
| ConsoleWarn (args : list string).

Inductive exn : Type :=
| TypeError (msg : string).

(** How a call that comes back ends. *)
Inductive completion (A : Type) : Type :=
| Return (a : A)
| Throw (e : exn).
Arguments Return {A} a.
Arguments Throw {A} e.

(** A call either comes back, with the diagnostics it emitted and its
    completion, or it is still recursing when the fuel is used up
    ([None]).  A call that is [None] at every fuel never comes back: in
    JavaScript its stack grows until the engine gives up. *)
Definition run (A : Type) : Type := option (list diagnostic * completion A).

Definition ret {A} (a : A) : run A := Some ([], Return a).

Definition throw {A} (e : exn) : run A := Some ([], Throw e).

Definition log (d : diagnostic) : run unit := Some ([d], Return tt).

Definition bind {A B} (m : run A) (k : A -> run B) : run B :=
  match m with
  | None => None
  | Some (l, Throw e) => Some (l, Throw e)
  | Some (l, Return a) =>
      match k a with
      | None => None
      | Some (l', c) => Some ((l ++ l')%list, c)
      end
  end.

(** [arr.map(f)] for an effectful callback, left to right. *)
Fixpoint mapM {A B} (f : A -> run B) (l : list A) : run (list B) :=
  match l with
  | [] => ret []
  | x :: rest =>
      bind (f x) (fun y =>
      bind (mapM f rest) (fun ys =>
      ret (y :: ys)))
  end.

(** [arr.reduce(f, init)] for an effectful callback. *)
Fixpoint reduceM {A B} (f : A -> B -> run A) (l : list B) (acc : A) : run A :=
  match l with
  | [] => ret acc
  | x :: rest => bind (f acc x) (fun acc' => reduceM f rest acc')
  end.

(** How a call ended, whatever it logged. *)
Definition returned {A} (m : run A) : option (completion A) :=
  match m with
  | Some (_, c) => Some c
  | None => None
  end.

(** [m] comes back with at least what [m'] does: more fuel never loses a
    result. *)
Definition below {A} (m m' : run A) : Prop :=
  forall r, m = Some r -> m' = Some r.

End Run.

Declare Scope run_scope.
Notation "x <- m ;; k" := (Run.bind m (fun x => k))
  (at level 61, m at next level, right associativity) : run_scope.
Notation "m ;;; k" := (Run.bind m (fun _ => k))
  (at level 61, right associativity) : run_scope.

(** ** The renderer *)

Module RitchText.
Import Js Run.
Local Open Scope run_scope.

(** The enums of [./types], a file that is not among the sources; their
    values are the type identifiers of the spec's data model. *)
Module BlockTypes.
(** Modelled from the spec: the value of [BlockTypes.DOCUMENT], declared in [./types]. *)
Definition DOCUMENT : string := "document".
(** Modelled from the spec: the value of [BlockTypes.HEADING], declared in [./types]. *)
Definition HEADING : string := "heading".
(** Modelled from the spec: the value of [BlockTypes.PARAGRAPH], declared in [./types]. *)
Definition PARAGRAPH : string := "paragraph".
(** Modelled from the spec: the value of [BlockTypes.UL_LIST], declared in [./types]. *)
Definition UL_LIST : string := "unordered-list".
(** Modelled from the spec: the value of [BlockTypes.OL_LIST], declared in [./types]. *)
Definition OL_LIST : string := "ordered-list".
(** Modelled from the spec: the value of [BlockTypes.LIST_ITEM], declared in [./types]. *)
Definition LIST_ITEM : string := "list-item".
End BlockTypes.

Module TextTypes.
(** Modelled from the spec: the value of [TextTypes.TEXT], declared in [./types]. *)
Definition TEXT : string := "text".
End TextTypes.

Module MarkTypes.
(** Modelled from the spec: the value of [MarkTypes.LINK], declared in [./types]. *)
Definition LINK : string := "link".
(** Modelled from the spec: the value of [MarkTypes.ANCHOR], declared in [./types]. *)
Definition ANCHOR : string := "anchor".
(** Modelled from the spec: the value of [MarkTypes.STYLED], declared in [./types]. *)
Definition STYLED : string := "styled".
(** Modelled from the spec: the value of [MarkTypes.BOLD], declared in [./types]. *)
Definition BOLD : string := "bold".
(** Modelled from the spec: the value of [MarkTypes.ITALIC], declared in [./types]. *)
Definition ITALIC : string := "italic".
(** Modelled from the spec: the value of [MarkTypes.UNDERLINE], declared in [./types]. *)
Definition UNDERLINE : string := "underline".
(** Modelled from the spec: the value of [MarkTypes.STRIKE], declared in [./types]. *)
Definition STRIKE : string := "strike".
(** Modelled from the spec: the value of [MarkTypes.CODE], declared in [./types]. *)
Definition CODE : string := "code".
(** Modelled from the spec: the value of [MarkTypes.SUPERSCRIPT], declared in [./types]. *)
Definition SUPERSCRIPT : string := "superscript".
(** Modelled from the spec: the value of [MarkTypes.SUBSCRIPT], declared in [./types]. *)
Definition SUBSCRIPT : string := "subscript".
(** Modelled from the spec: the value of [MarkTypes.HIGHLIGHT], declared in [./types]. *)
Definition HIGHLIGHT : string := "highlight".
End MarkTypes.

Module LinkTypes.
(** Modelled from the spec: the value of [LinkTypes.ASSET], declared in [./types]. *)
Definition ASSET : string := "asset".
(** Modelled from the spec: the value of [LinkTypes.URL], declared in [./types]. *)
Definition URL : string := "url".
(** Modelled from the spec: the value of [LinkTypes.EMAIL], declared in [./types]. *)
Definition EMAIL : string := "email".
(** Modelled from the spec: the value of [LinkTypes.STORY], declared in [./types]. *)
Definition STORY : string := "story".
End LinkTypes.

(** Modelled from the spec: [MarkNode], declared in [./types]; a mark has
    a type and optional attributes. *)
Record Mark : Type := mkMark {
  mark_type : string;
  mark_attrs : option object
}.

(** Modelled from the spec: the properties of a [Node] or [TextNode],
    declared in [./types], that the code reads; a missing property is
    [None]. *)
Record fields (N : Type) : Type := mkFields {
  type : string;
  attrs : option object;
  content : option (list N);
  text : option string;
  marks : option (list Mark)
}.
Arguments mkFields {N} type attrs content text marks.
Arguments type {N} f.
Arguments attrs {N} f.
Arguments content {N} f.
Arguments text {N} f.
Arguments marks {N} f.

(** What [render] can be handed: [null]/[undefined], an array, or a node
    object. *)
Inductive Node : Type :=
| Null
| Arr (items : list Node)
| Obj (o : fields Node).

(** A resolver receives the node object and the value of its [children]
    property, the strings its content rendered to. *)
Definition NodeResolver : Type :=
  fields Node -> option (list string) -> run string.

(** [node.attrs?.key] *)
Definition attr (o : fields Node) (k : string) : option value :=
  match attrs o with
  | Some a => get a k
  | None => None
  end.

(** Lines 49-51, [attrsToString]: the default parameter turns a missing
    bag into [{}].  The keys are taken in the order of the bag; a bag is
    not meant to hold integer-like keys, which [Object.keys] would list
    first. *)
Definition attrsToString (a : option object) : string :=
  let bag := match a with Some b => b | None => [] end in
  join " " (map (fun key => key ++ "=" ++ dquote ++ opt_to_string (get bag key) ++ dquote)
                (keys bag)).

(** Lines 53-60: five global replacements, one after the other. *)
Definition escapeHtml (unsafeText : string) : string :=
  replace_all "'" "&#039;"
    (replace_all "034" "&quot;"
      (replace_all ">" "&gt;"
        (replace_all "<" "&lt;"
          (replace_all "&" "&amp;" unsafeText)))).

(** [`${node.children?.join('')}`] *)
Definition children_string (children : option (list string)) : string :=
  match children with
  | Some l => concat_all l
  | None => "undefined"
  end.

(** Lines 64-66. *)
Definition nodeResolver (tag : string) : NodeResolver :=
  fun node children =>
    ret ("<" ++ tag ++ " " ++ attrsToString (attrs node) ++ ">"
         ++ children_string children ++ "</" ++ tag ++ ">").

(** Line 68. *)
Definition headingResolver : NodeResolver :=
  fun node children =>
    ret ("<h" ++ opt_to_string (attr node "level") ++ " " ++ attrsToString (attrs node) ++ ">"
         ++ children_string children
         ++ "</h" ++ opt_to_string (attr node "level") ++ ">").

(** Lines 71-72. *)
Definition markResolver (tag : string) : NodeResolver :=
  fun node _ =>
    ret ("<" ++ tag ++ " " ++ attrsToString (attrs node) ++ ">"
         ++ opt_string (text node) ++ "</" ++ tag ++ ">").

(** Line 119, the resolver registered for the document type. *)
Definition documentResolver : NodeResolver :=
  fun _ children => ret ("<div>" ++ children_string children ++ "</div>").

(** [{ ...mark, text }] *)
Definition mark_node (mark : Mark) (txt : string) : Node :=
  Obj (mkFields (mark_type mark) (mark_attrs mark) None (Some txt) None).

Section Resolvers.
(** The resolvers close over [render]. *)
Variable render : Node -> run string.

(** Lines 75-89.  The initial value of the fold is [render(node)], the
    node the resolver was called with. *)
Definition textResolver : NodeResolver :=
  fun node _ =>
    match text node with
    | Some txt =>
        match marks node with
        | Some ms =>
            init <- render (Obj node) ;;
            reduceM (fun acc mark => render (mark_node mark acc)) ms init
        | None => ret (escapeHtml txt)
        end
    | None => ret EmptyString
    end.

(** Lines 93-116.  The [switch] compares [attrs.linktype] strictly with
    the enum values; ASSET and URL share a branch. *)
Definition linkResolver : NodeResolver :=
  fun node _ =>
    let targetAttr :=
      if opt_truthy (attr node "target")
      then " target=" ++ dquote ++ opt_to_string (attr node "target") ++ dquote
      else EmptyString in
    let linktype := attr node "linktype" in
    let href :=
      if includes [VStr LinkTypes.ASSET; VStr LinkTypes.URL] linktype
      then opt_to_string (attr node "href")
      else if includes [VStr LinkTypes.EMAIL] linktype
      then "mailto:" ++ opt_to_string (attr node "href")
      else if includes [VStr LinkTypes.STORY] linktype
      then opt_to_string (attr node "href")
      else EmptyString in
    ret ("<a " ++ attrsToString (attrs node) ++ " href=" ++ dquote ++ href ++ dquote
         ++ targetAttr ++ ">" ++ opt_string (text node) ++ "</a>").

(** Lines 118-137, the entries of the [Map] in source order. *)
Definition resolvers : list (string * NodeResolver) :=
  [ (BlockTypes.DOCUMENT, documentResolver);
    (BlockTypes.HEADING, headingResolver);
    (BlockTypes.PARAGRAPH, nodeResolver "p");
    (BlockTypes.UL_LIST, nodeResolver "ul");
    (BlockTypes.OL_LIST, nodeResolver "ol");
    (BlockTypes.LIST_ITEM, nodeResolver "li");
    (TextTypes.TEXT, textResolver);
    (MarkTypes.LINK, linkResolver);
    (MarkTypes.ANCHOR, linkResolver);
    (MarkTypes.STYLED, markResolver "span");
    (MarkTypes.BOLD, markResolver "strong");
    (MarkTypes.ITALIC, markResolver "em");
    (MarkTypes.UNDERLINE, markResolver "u");
    (MarkTypes.STRIKE, markResolver "s");
    (MarkTypes.CODE, markResolver "code");
    (MarkTypes.SUPERSCRIPT, markResolver "sup");
    (MarkTypes.SUBSCRIPT, markResolver "sub");
    (MarkTypes.HIGHLIGHT, markResolver "mark") ].

(** [resolvers.get(type)] *)
Fixpoint resolvers_get (table : list (string * NodeResolver)) (ty : string)
  : option NodeResolver :=
  match table with
  | [] => None
  | (k, r) :: rest => if String.eqb k ty then Some r else resolvers_get rest ty
  end.

Definition no_resolver (ty : string) : diagnostic :=
  ConsoleError ["<Storyblok>"; "No resolver found for node type " ++ ty].

(** [node.content ? node.content.map(render) : undefined] *)
Definition render_children (c : option (list Node)) : run (option (list string)) :=
  match c with
  | Some items => strs <- mapM render items ;; ret (Some strs)
  | None => ret None
  end.

(** Lines 139-156.  Reading [type] of [null] throws; an array has no
    [type]. *)
Definition renderNode (node : Node) : run string :=
  match node with
  | Null => throw (TypeError "Cannot read properties of null (reading 'type')")
  | Arr _ =>
      (* an array has no [type]: the lookup key is [undefined] *)
      log (no_resolver "undefined") ;;; ret EmptyString
  | Obj o =>
      match resolvers_get resolvers (type o) with
      | None => log (no_resolver (type o)) ;;; ret EmptyString
      | Some resolver =>
          if String.eqb (type o) "text" then resolver o None
          else
            children <- render_children (content o) ;;
            resolver o children
      end
  end.

Definition no_content : diagnostic :=
  ConsoleWarn ["No content to render," ++ String "010" EmptyString
    ++ "      The render method must receive an Object with a " ++ dquote ++ "content"
    ++ dquote ++ " field that is an array of nodes"].

(** Lines 158-166, the body of [render]. *)
Definition render_body (node : Node) : run string :=
  match node with
  | Null => log no_content ;;; ret EmptyString
  | Arr items => strs <- mapM renderNode items ;; ret (concat_all strs)
  | Obj _ => renderNode node
  end.

End Resolvers.

(** [render], with the depth of the call stack bounded by [fuel]. *)
Fixpoint render (fuel : nat) (node : Node) : run string :=
  match fuel with
  | O => None
  | S fuel' => render_body (render fuel') node
  end.

End RitchText.

(** ** Notions the properties are stated with *)

Module Escape.
Import Js.

(** What one character becomes when a text is escaped in a single pass. *)
Definition escape_char (a : ascii) : string :=
  if Ascii.eqb a "&" then "&amp;"
  else if Ascii.eqb a "<" then "&lt;"
  else if Ascii.eqb a ">" then "&gt;"
  else if Ascii.eqb a "034" then "&quot;"
  else if Ascii.eqb a "'" then "&#039;"
  else String a EmptyString.

(** Single-pass escaping: every character is looked at once. *)
Fixpoint escape_once (s : string) : string :=
  match s with
  | EmptyString => EmptyString
  | String a rest => escape_char a ++ escape_once rest
  end.

(** [strip p s] is [Some r] when [s = p ++ r]. *)
Fixpoint strip (p s : string) : option string :=
  match p, s with
  | EmptyString, _ => Some s
  | String a p', String b s' => if Ascii.eqb a b then strip p' s' else None
  | String _ _, EmptyString => None
  end.

(** Decodes the entity that starts at an ampersand whose tail is [r]. *)
Definition decode_entity (r : string) : string :=
  match strip "amp;" r with
  | Some t => String "&" t
  | None =>
  match strip "lt;" r with
  | Some t => String "<" t
  | None =>
  match strip "gt;" r with
  | Some t => String ">" t
  | None =>
  match strip "quot;" r with
  | Some t => String "034" t
  | None =>
  match strip "#039;" r with
  | Some t => String "'" t
  | None => String "&" r
  end end end end end.

(** The unescaping the round-trip property speaks of; the source has no
    such function.  It decodes the five entities [escapeHtml] produces.
    The tail is decoded first, which keeps the recursion structural; no
    decoded tail can begin with the letters of an entity unless the
    tail itself did. *)
Fixpoint unescapeHtml (s : string) : string :=
  match s with
  | EmptyString => EmptyString
  | String a rest =>
      if Ascii.eqb a "&" then decode_entity (unescapeHtml rest)
      else String a (unescapeHtml rest)
  end.

End Escape.

Module Registry.
Import Js Run RitchText.

(** The keys of the registry; they do not depend on [render]. *)
Definition registered_types : list string :=
  map fst (resolvers (fun _ => None)).

Definition is_registered (ty : string) : bool :=
  existsb (String.eqb ty) registered_types.

(** The resolvers of every type but [text] are pure templates. *)
Inductive template : NodeResolver -> Prop :=
| T_document : template documentResolver
| T_heading : template headingResolver
| T_node tag : template (nodeResolver tag)
| T_link : template linkResolver
| T_mark tag : template (markResolver tag).

End Registry.

Module Shape.
Import Js RitchText.

(** How deep the nesting of arrays and [content] goes. *)
Fixpoint depth (n : Node) : nat :=
  match n with
  | Null => 0
  | Arr items => S (list_max (map depth items))
  | Obj o =>
      S (match content o with
         | Some items => list_max (map depth items)
         | None => 0
         end)
  end.

Definition present {A} (o : option A) : bool :=
  match o with Some _ => true | None => false end.

(** The node object is a text node that has both [text] and [marks]. *)
Definition marked_text (o : fields Node) : bool :=
  String.eqb (type o) "text" && present (text o) && present (marks o).

(** No marked text node anywhere in the tree. *)
Fixpoint mark_free (n : Node) : bool :=
  match n with
  | Null => true
  | Arr items => forallb mark_free items
  | Obj o =>
      negb (marked_text o)
      && match content o with
         | Some items => forallb mark_free items
         | None => true
         end
  end.

End Shape.

(** The elements the marks are rendered to, and the nesting a list of
    marks is expected to give. *)
Module Marks.
Import Js RitchText.

(** The element of each plain mark type (the spec's tag table). *)
Definition mark_element (ty : string) : option string :=
  if String.eqb ty "bold" then Some "strong"
  else if String.eqb ty "italic" then Some "em"
  else if String.eqb ty "underline" then Some "u"
  else if String.eqb ty "strike" then Some "s"
  else if String.eqb ty "code" then Some "code"
  else if String.eqb ty "superscript" then Some "sup"
  else if String.eqb ty "subscript" then Some "sub"
  else if String.eqb ty "highlight" then Some "mark"
  else if String.eqb ty "styled" then Some "span"
  else None.

Definition plain_mark (m : Mark) : Prop := mark_element (mark_type m) <> None.

(** [inner] wrapped by the element of [m]; the opening tag always has a
    space between the tag name and the attribute string. *)
Definition wrap_mark (m : Mark) (inner : string) : string :=
  match mark_element (mark_type m) with
  | Some tag =>
      "<" ++ tag ++ " " ++ attrsToString (mark_attrs m) ++ ">" ++ inner ++ "</" ++ tag ++ ">"
  | None => inner
  end.

(** [inner] wrapped by the marks of [ms], the first one innermost:
    the head of the reversed list is the outermost element. *)
Definition wrap_marks (ms : list Mark) (inner : string) : string :=
  fold_right wrap_mark inner (rev ms).

End Marks.

(** What the link resolver is expected to compute. *)
Module Links.
Import Js RitchText.

Definition expected_href (linktype href : option value) : string :=
  match linktype with
  | Some (VStr "asset") | Some (VStr "url") | Some (VStr "story") => opt_to_string href
  | Some (VStr "email") => "mailto:" ++ opt_to_string href
  | _ => EmptyString
  end.

Definition expected_target (target : option value) : string :=
  match target with
  | Some v => if truthy v then " target=" ++ dquote ++ to_string v ++ dquote else EmptyString
  | None => EmptyString
  end.

Definition link_mark (m : Mark) : Prop :=
  mark_type m = "link" \/ mark_type m = "anchor".

(** [get bag key] for a bag that may be missing. *)
Definition mark_attr (m : Mark) (k : string) : option value :=
  match mark_attrs m with
  | Some a => get a k
  | None => None
  end.

End Links.

(** Where a list of sibling nodes sits in a tree. *)
Module Context.
Import Js Run RitchText.

(** What holds a list of siblings: an array, or the [content] of a node
    object with the given other properties. *)
Inductive holder : Type :=
| HArr
| HObj (ty : string) (a : option object) (t : option string) (ms : option (list Mark)).

Definition hold (h : holder) (items : list Node) : Node :=
  match h with
  | HArr => Arr items
  | HObj ty a t ms => Obj (mkFields ty a (Some items) t ms)
  end.

(** The ancestors of a node, innermost last: each one holds the next
    among its own siblings. *)
Inductive context : Type :=
| Hole
| Inside (h : holder) (before after : list Node) (c : context).

Fixpoint plug (c : context) (n : Node) : Node :=
  match c with
  | Hole => n
  | Inside h before after c' => hold h (before ++ plug c' n :: after)
  end.

Fixpoint ancestors (c : context) : nat :=
  match c with
  | Hole => 0
  | Inside _ _ _ c' => S (ancestors c')
  end.

(** Two lists of siblings that no reader of the joined children can tell
    apart, whatever the callback [rd] that renders them logs. *)
Definition same_children (rd : Node -> run string) (items items' : list Node) : Prop :=
  forall (C : Type) (k k' : list string -> run C),
    (forall ys ys', concat_all ys = concat_all ys' -> returned (k ys) = returned (k' ys')) ->
    returned (bind (mapM rd items) k) = returned (bind (mapM rd items') k').

(** [renderNode] and [render] return the same for both nodes when the
    recursive calls have [fuel] left. *)
Definition same_output (fuel : nat) (x x' : Node) : Prop :=
  returned (renderNode (render fuel) x) = returned (renderNode (render fuel) x')
  /\ returned (render (S fuel) x) = returned (render (S fuel) x').

End Context.

(** The inputs of the spec's scenarios. *)
Module Examples.
Import Js RitchText.

Definition bold : Mark := mkMark "bold" None.
Definition italic : Mark := mkMark "italic" None.

Definition text_node (txt : string) (ms : option (list Mark)) : Node :=
  Obj (mkFields "text" None None (Some txt) ms).

Definition block (ty : string) (a : option object) (items : list Node) : Node :=
  Obj (mkFields ty a (Some items) None None).

(** [{type: "text", text: "a", marks: [{type: "bold"}]}] *)
Definition marked_a : Node := text_node "a" (Some [bold]).

(** [{type: "text", text: "text", marks: [{type: "bold"}, {type: "italic"}]}] *)
Definition bold_italic_text : Node := text_node "text" (Some [bold; italic]).

(** The document of the end-to-end scenario. *)
Definition document_bold : Node :=
  block "document" None
    [block "paragraph" None [text_node "Hi <there>" (Some [bold])]].

(** The same document with the mark list left out. *)
Definition document_plain : Node :=
  block "document" None
    [block "paragraph" None [text_node "Hi <there>" None]].

Definition email_link : Mark :=
  mkMark "link" (Some [("linktype", VStr "email"); ("href", VStr "a@b.com")]).

(** [{type: "text", text: "go", marks: [{type: "link", attrs: {...}}]}] *)
Definition link_text : Node := text_node "go" (Some [email_link]).

(** [{type: "heading", attrs: {level}, content: [{type: "text", text:
    "Title", marks: [{type: "bold"}]}]}] *)
Definition heading_bold (level : value) : Node :=
  block "heading" (Some [("level", level)]) [text_node "Title" (Some [bold])].

(** A node of a type the registry does not know. *)
Definition video : fields Node := mkFields "video" None None None None.

End Examples.

(** The image URL the spec describes. *)
Module ImageSpec.
Import Js Image.

(** The declared order of the filters. *)
Definition filter_order : list string :=
  ["blur"; "quality"; "brightness"; "fill"; "grayscale"; "rotate"; "format"].

(** The segment of one filter key, if it applies. *)
Definition filter_segment (f : object) (k : string) : option string :=
  match get f k with
  | None => None
  | Some v =>
      if negb (truthy v) then None
      else if String.eqb k "grayscale" then Some "grayscale()"
      else if String.eqb k "rotate" then
        if existsb (strict_eqb v) [VNum 90; VNum 180; VNum 270]
        then Some ("rotate(" ++ to_string v ++ ")") else None
      else if String.eqb k "format" then
        if existsb (strict_eqb v) [VStr "webp"; VStr "png"; VStr "jpeg"]
        then Some ("format(" ++ to_string v ++ ")") else None
      else Some (k ++ "(" ++ to_string v ++ ")")
  end.

Definition expected_filters (f : object) : list string :=
  flat_map (fun k => match filter_segment f k with Some s => [s] | None => [] end)
           filter_order.

(** Both [width] and [height] are present and positive. *)
Definition both_positive (o : options) : bool :=
  match width o, height o with
  | Some w, Some h => (0 <? w)%Z && (0 <? h)%Z
  | _, _ => false
  end.

(** The dimensions written after [/m/], if any. *)
Definition dims_segment (o : options) : string :=
  match width o, height o with
  | Some w, Some h =>
      if (0 <? w)%Z && (0 <? h)%Z then num_to_string w ++ "x" ++ num_to_string h
      else EmptyString
  | _, _ => EmptyString
  end.

(** The filter list written after the dimensions, if any. *)
Definition filters_segment (fs : list string) : string :=
  match fs with
  | [] => EmptyString
  | _ => "filters:" ++ join ":" fs
  end.

Definition bag (o : options) : object :=
  match filters o with Some f => f | None => [] end.

Definition empty_options : options := mkOptions None None None None None.

(** The options give neither a dimensions segment nor a filter segment. *)
Definition no_segment (a : options_arg) : Prop :=
  match a with
  | OObject o => both_positive o = false /\ expected_filters (bag o) = []
  | _ => True
  end.

(** [{filters: {blur: 5}}] *)
Definition blur_only : options :=
  mkOptions None None None None (Some [("blur", VNum 5)]).

(** [{width: 100, height: 200, filters: {blur: 5}}] *)
Definition sized_blur : options :=
  mkOptions (Some 100%Z) (Some 200%Z) None None (Some [("blur", VNum 5)]).

End ImageSpec.

(** ** Notions for the further properties *)

(** Which characters a string holds. *)
Module Chars.

(** [c] occurs in [s]. *)
Fixpoint occurs (c : ascii) (s : string) : bool :=
  match s with
  | EmptyString => false
  | String a rest => Ascii.eqb a c || occurs c rest
  end.

(** One of the five characters [escapeHtml] replaces. *)
Definition special (a : ascii) : bool :=
  Ascii.eqb a "&" || Ascii.eqb a "<" || Ascii.eqb a ">"
  || Ascii.eqb a "034" || Ascii.eqb a "'".

Fixpoint has_special (s : string) : bool :=
  match s with
  | EmptyString => false
  | String a rest => special a || has_special rest
  end.

End Chars.

(** Documents as an editor produces them, and where a node sits in one. *)
Module Documents.
Import Js Run RitchText Registry Shape Context.

(** The element of the list and paragraph blocks. *)
Definition block_tag (ty : string) : option string :=
  if String.eqb ty "paragraph" then Some "p"
  else if String.eqb ty "unordered-list" then Some "ul"
  else if String.eqb ty "ordered-list" then Some "ol"
  else if String.eqb ty "list-item" then Some "li"
  else None.

(** The opening and the closing tag of a block node. *)
Definition block_element (o : fields Node) : option (string * string) :=
  if String.eqb (type o) "document" then Some ("<div>", "</div>")
  else if String.eqb (type o) "heading" then
    Some ("<h" ++ opt_to_string (attr o "level") ++ " " ++ attrsToString (attrs o) ++ ">",
          "</h" ++ opt_to_string (attr o "level") ++ ">")
  else
    match block_tag (type o) with
    | Some tag =>
        Some ("<" ++ tag ++ " " ++ attrsToString (attrs o) ++ ">", "</" ++ tag ++ ">")
    | None => None
    end.

(** A node object of a registered type, not a marked text node, whose
    content holds only such node objects. *)
Fixpoint tidy (n : Node) : bool :=
  match n with
  | Null => false
  | Arr _ => false
  | Obj o =>
      is_registered (type o) && negb (marked_text o)
      && match content o with
         | Some items => forallb tidy items
         | None => true
         end
  end.

(** A tidy node object, or an array of tidy node objects. *)
Definition tidy_input (n : Node) : bool :=
  match n with
  | Arr items => forallb tidy items
  | _ => tidy n
  end.

(** Every ancestor is a node object of a registered type other than
    [text]. *)
Fixpoint block_path (c : context) : bool :=
  match c with
  | Hole => true
  | Inside HArr _ _ _ => false
  | Inside (HObj ty _ _ _) _ _ c' =>
      is_registered ty && negb (String.eqb ty "text") && block_path c'
  end.

(** The call came back with a string. *)
Definition returns_string (m : run string) : Prop :=
  exists log s, m = Some (log, Return s).

(** The value is a node object, not [null] and not an array. *)
Definition is_object (n : Node) : bool :=
  match n with
  | Obj _ => true
  | _ => false
  end.

End Documents.

(** The attributes [optimizeImage] hands back. *)
Module ImageAttrs.
Import Js Image.

(** What the returned [attrs] hold under key [k]. *)
Definition expected_attr (o : options) (k : string) : option value :=
  if String.eqb "width" k then
    match width o with
    | Some n => if Z.eqb n 0 then None else Some (VNum n)
    | None => None
    end
  else if String.eqb "height" k then
    match height o with
    | Some n => if Z.eqb n 0 then None else Some (VNum n)
    | None => None
    end
  else if String.eqb "loading" k then
    match loading o with
    | Some s => if String.eqb s "lazy" || String.eqb s "eager" then Some (VStr s) else None
    | None => None
    end
  else if String.eqb "class" k then
    match class o with
    | Some s => if String.eqb s EmptyString then None else Some (VStr s)
    | None => None
    end
  else None.

(** The options with another [filters] bag. *)
Definition with_filters (o : options) (f : object) : options :=
  mkOptions (width o) (height o) (loading o) (class o) (Some f).

End ImageAttrs.

(** ** Facts about the string helpers *)

Module JsFacts.
Import Js.

Lemma append_empty_r (s : string) : s ++ EmptyString = s.
Proof. induction s as [|a s IH]; simpl; [reflexivity | now rewrite IH]. Qed.

Lemma append_assoc (a b c : string) : (a ++ b) ++ c = a ++ (b ++ c).
Proof. induction a as [|x a IH]; simpl; [reflexivity | now rewrite IH]. Qed.

Lemma concat_all_cons (x : string) (l : list string) :
  concat_all (x :: l) = x ++ concat_all l.
Proof.
  unfold concat_all. destruct l as [|y l]; simpl.
  - now rewrite append_empty_r.
  - reflexivity.
Qed.

Lemma concat_all_app (l1 l2 : list string) :
  concat_all (l1 ++ l2) = concat_all l1 ++ concat_all l2.
Proof.
  induction l1 as [|x l1 IH].
  - reflexivity.
  - rewrite <- app_comm_cons, !concat_all_cons, IH, append_assoc. reflexivity.
Qed.

(** An empty string among the pieces leaves [join('')] unchanged. *)
Lemma concat_all_skip_empty (l1 l2 : list string) :
  concat_all (l1 ++ EmptyString :: l2) = concat_all (l1 ++ l2).
Proof. rewrite !concat_all_app, concat_all_cons. reflexivity. Qed.

Lemma replace_all_app (c : ascii) (rep x y : string) :
  replace_all c rep (x ++ y) = replace_all c rep x ++ replace_all c rep y.
Proof.
  induction x as [|a x IH]; simpl.
  - reflexivity.
  - destruct (Ascii.eqb a c); simpl; rewrite IH.
    + now rewrite append_assoc.
    + reflexivity.
Qed.

Lemma get_skip (k k' : string) (v : value) (o : object) :
  String.eqb k' k = false -> get ((k', v) :: o) k = get o k.
Proof. intros H. simpl. now rewrite H. Qed.

End JsFacts.

(** ** Facts about escaping *)

Module EscapeFacts.
Import Js JsFacts RitchText Escape.

Lemma escapeHtml_app (x y : string) :
  escapeHtml (x ++ y) = escapeHtml x ++ escapeHtml y.
Proof. unfold escapeHtml. now rewrite !replace_all_app. Qed.

Lemma escapeHtml_char (a : ascii) :
  escapeHtml (String a EmptyString) = escape_char a.
Proof.
  unfold escapeHtml, escape_char.
  cbn [replace_all].
  destruct (Ascii.eqb a "&") eqn:E1; [reflexivity|].
  cbn [replace_all].
  destruct (Ascii.eqb a "<") eqn:E2; [reflexivity|].
  cbn [replace_all].
  destruct (Ascii.eqb a ">") eqn:E3; [reflexivity|].
  cbn [replace_all].
  destruct (Ascii.eqb a "034") eqn:E4; [reflexivity|].
  cbn [replace_all].
  destruct (Ascii.eqb a "'") eqn:E5; reflexivity.
Qed.

(** The five chained replacements escape each character exactly once. *)
Lemma escapeHtml_single_pass (s : string) : escapeHtml s = escape_once s.
Proof.
  induction s as [|a s IH].
  - reflexivity.
  - change (String a s) with (String a EmptyString ++ s).
    rewrite escapeHtml_app, escapeHtml_char, IH. reflexivity.
Qed.

Lemma unescape_escape_once (s : string) : unescapeHtml (escape_once s) = s.
Proof.
  induction s as [|a s IH].
  - reflexivity.
  - cbn [escape_once]. unfold escape_char.
    destruct (Ascii.eqb a "&") eqn:E1.
    { apply Ascii.eqb_eq in E1. subst a. cbn. now rewrite IH. }
    destruct (Ascii.eqb a "<") eqn:E2.
    { apply Ascii.eqb_eq in E2. subst a. cbn. now rewrite IH. }
    destruct (Ascii.eqb a ">") eqn:E3.
    { apply Ascii.eqb_eq in E3. subst a. cbn. now rewrite IH. }
    destruct (Ascii.eqb a "034") eqn:E4.
    { apply Ascii.eqb_eq in E4. subst a. cbn. now rewrite IH. }
    destruct (Ascii.eqb a "'") eqn:E5.
    { apply Ascii.eqb_eq in E5. subst a. cbn. now rewrite IH. }
    cbn [append unescapeHtml]. rewrite E1, IH. reflexivity.
Qed.

Lemma escapeHtml_roundtrip (s : string) : unescapeHtml (escapeHtml s) = s.
Proof. rewrite escapeHtml_single_pass. apply unescape_escape_once. Qed.

Lemma escapeHtml_injective (s t : string) : escapeHtml s = escapeHtml t -> s = t.
Proof.
  intros H. rewrite <- (escapeHtml_roundtrip s), <- (escapeHtml_roundtrip t).
  now rewrite H.
Qed.

End EscapeFacts.

(** ** Facts about logging computations *)

Module RunFacts.
Import Run.

Lemma below_refl {A} (m : run A) : below m m.
Proof. intros r H; exact H. Qed.

Lemma below_bind {A B} (m m' : run A) (k k' : A -> run B) :
  below m m' -> (forall a, below (k a) (k' a)) -> below (bind m k) (bind m' k').
Proof.
  intros Hm Hk r. unfold bind.
  destruct m as [[l [a|e]]|]; try discriminate.
  - rewrite (Hm _ eq_refl).
    destruct (k a) as [[l' c]|] eqn:Ek; try discriminate.
    now rewrite (Hk a _ Ek).
  - now rewrite (Hm _ eq_refl).
Qed.

Lemma below_mapM {A B} (f f' : A -> run B) (l : list A) :
  (forall x, below (f x) (f' x)) -> below (mapM f l) (mapM f' l).
Proof.
  intros Hf. induction l as [|x l IH]; cbn [mapM].
  - apply below_refl.
  - apply below_bind; [apply Hf|]. intros y.
    apply below_bind; [exact IH|]. intros ys. apply below_refl.
Qed.

Lemma below_reduceM {A B} (f f' : A -> B -> run A) (l : list B) (acc : A) :
  (forall a x, below (f a x) (f' a x)) -> below (reduceM f l acc) (reduceM f' l acc).
Proof.
  intros Hf. revert acc. induction l as [|x l IH]; intros acc; cbn [reduceM].
  - apply below_refl.
  - apply below_bind; [apply Hf|]. intros a. apply IH.
Qed.

(** What a sequence returns depends only on what its parts return. *)
Lemma returned_bind {A B} (m m' : run A) (k k' : A -> run B) :
  returned m = returned m' ->
  (forall a, returned (k a) = returned (k' a)) ->
  returned (bind m k) = returned (bind m' k').
Proof.
  intros Hm Hk. unfold bind.
  destruct m as [[l [a|e]]|], m' as [[l' [a'|e']]|]; cbn in Hm; try discriminate;
    try (injection Hm as ->); try reflexivity.
  specialize (Hk a').
  destruct (k a') as [[? ?]|], (k' a') as [[? ?]|]; cbn in Hk |- *;
    try discriminate; try reflexivity.
  now injection Hk as ->.
Qed.

Lemma returned_mapM_replace {A B} (f : A -> run B) (l1 l2 : list A) (x x' : A) :
  returned (f x) = returned (f x') ->
  returned (mapM f (l1 ++ x :: l2)) = returned (mapM f (l1 ++ x' :: l2)).
Proof.
  intros Hx. induction l1 as [|y l1 IH]; cbn [app mapM].
  - apply returned_bind; [exact Hx | reflexivity].
  - apply returned_bind; [reflexivity|]. intros b.
    apply returned_bind; [exact IH | reflexivity].
Qed.

(** An element whose callback returns [v] contributes [v] at its place. *)
Lemma returned_mapM_insert {A B C} (f : A -> run B) (l1 l2 : list A) (x : A)
      (d : list diagnostic) (v : B) (g : list B -> C) :
  f x = Some (d, Return v) ->
  (forall ys1 ys2, g (ys1 ++ v :: ys2)%list = g (ys1 ++ ys2)%list) ->
  returned (bind (mapM f (l1 ++ x :: l2)) (fun ys => ret (g ys)))
  = returned (bind (mapM f (l1 ++ l2)) (fun ys => ret (g ys))).
Proof.
  intros Hx Hg. revert g Hg. induction l1 as [|y l1 IH]; intros g Hg; cbn [app mapM].
  - rewrite Hx. specialize (Hg []). cbn [app] in Hg.
    destruct (mapM f l2) as [[l [ys|e]]|]; cbn; try reflexivity.
    now rewrite Hg.
  - destruct (f y) as [[l [b|e]]|]; cbn [bind]; try reflexivity.
    specialize (IH (fun ys => g (b :: ys))).
    assert (Hg' : forall ys1 ys2,
               g (b :: (ys1 ++ v :: ys2))%list = g (b :: (ys1 ++ ys2))%list).
    { intros ys1 ys2. apply (Hg (b :: ys1)). }
    specialize (IH Hg').
    destruct (mapM f (l1 ++ x :: l2)) as [[la [ysa|ea]]|],
             (mapM f (l1 ++ l2)) as [[lb [ysb|eb]]|];
      cbn in IH |- *; try discriminate; try reflexivity; exact IH.
Qed.

Lemma mapM_total {A B} (f : A -> run B) (l : list A) :
  (forall x, In x l -> exists r, f x = Some r) -> exists r, mapM f l = Some r.
Proof.
  induction l as [|x l IH]; intros H; cbn [mapM].
  - eexists; reflexivity.
  - destruct (H x (or_introl eq_refl)) as [[lx [y|e]] Hx]; rewrite Hx; cbn [bind].
    + destruct IH as [[ll [ys|e]] Hl]; [intros; apply H; now right| |];
        rewrite Hl; cbn; eexists; reflexivity.
    + eexists; reflexivity.
Qed.

End RunFacts.

(** ** Facts about the resolver registry *)

Module RegistryFacts.
Import Js Run RunFacts RitchText Registry.

Ltac split_lookup ty :=
  unfold resolvers; cbn [resolvers_get];
  repeat match goal with
         | |- context [String.eqb ?k ty] => destruct (String.eqb k ty) eqn:?
         end.

Ltac name_type ty :=
  match goal with
  | H : String.eqb _ ty = true |- _ => apply String.eqb_eq in H; subst ty
  end.

Lemma resolvers_get_unregistered rd ty :
  is_registered ty = false -> resolvers_get (resolvers rd) ty = None.
Proof.
  intros H. split_lookup ty; try reflexivity; name_type ty; discriminate H.
Qed.

Lemma resolvers_get_registered rd ty :
  is_registered ty = true -> exists r, resolvers_get (resolvers rd) ty = Some r.
Proof.
  intros H. split_lookup ty; try (eexists; reflexivity).
  unfold is_registered, registered_types, resolvers in H. cbn [map fst existsb] in H.
  repeat match goal with
         | E : String.eqb ?k ty = false |- _ =>
             rewrite String.eqb_sym in E; rewrite E in H; clear E
         end.
  discriminate H.
Qed.

Lemma resolvers_get_text rd ty :
  String.eqb ty "text" = true -> resolvers_get (resolvers rd) ty = Some (textResolver rd).
Proof.
  intros H. apply String.eqb_eq in H. subst ty. reflexivity.
Qed.

Lemma resolvers_get_other rd rd' ty :
  String.eqb ty "text" = false ->
  resolvers_get (resolvers rd) ty = resolvers_get (resolvers rd') ty.
Proof.
  intros H. split_lookup ty; try reflexivity. name_type ty. discriminate H.
Qed.

Lemma resolvers_get_template rd ty r :
  String.eqb ty "text" = false ->
  resolvers_get (resolvers rd) ty = Some r -> template r.
Proof.
  intros H. split_lookup ty; intros [= <-]; try constructor.
  name_type ty. discriminate H.
Qed.

Lemma template_returns r o ch :
  template r -> exists s, r o ch = Some ([], Return s).
Proof. intros []; eexists; reflexivity. Qed.

(** A template reads its children only through [join('')]. *)
Lemma template_children r o ys ys' :
  template r -> concat_all ys = concat_all ys' -> r o (Some ys) = r o (Some ys').
Proof.
  intros [] H; cbv [documentResolver headingResolver nodeResolver linkResolver
                     markResolver children_string]; now rewrite ?H.
Qed.

End RegistryFacts.

(** ** Facts about [render] *)

Module RenderFacts.
Import Js JsFacts Run RunFacts RitchText Registry RegistryFacts.
Local Open Scope run_scope.

Lemma render_S fuel node : render (S fuel) node = render_body (render fuel) node.
Proof. reflexivity. Qed.

Section Monotone.
Variables rd rd' : Node -> run string.
Hypothesis rd_below : forall n, below (rd n) (rd' n).

Lemma render_children_below c :
  below (render_children rd c) (render_children rd' c).
Proof.
  destruct c as [items|]; cbn [render_children]; [|apply below_refl].
  apply below_bind; [now apply below_mapM | intros; apply below_refl].
Qed.

Lemma textResolver_below o ch :
  below (textResolver rd o ch) (textResolver rd' o ch).
Proof.
  unfold textResolver.
  destruct (text o); [|apply below_refl].
  destruct (marks o); [|apply below_refl].
  apply below_bind; [apply rd_below|]. intros init.
  apply below_reduceM. intros a x. apply rd_below.
Qed.

Lemma renderNode_below n : below (renderNode rd n) (renderNode rd' n).
Proof.
  destruct n as [|items|o]; cbn [renderNode]; try apply below_refl.
  destruct (String.eqb (type o) "text") eqn:Et.
  - rewrite !(resolvers_get_text _ _ Et). apply textResolver_below.
  - rewrite (resolvers_get_other rd rd' _ Et).
    destruct (resolvers_get (resolvers rd') (type o)); [|apply below_refl].
    apply below_bind; [apply render_children_below | intros; apply below_refl].
Qed.

Lemma render_body_below n : below (render_body rd n) (render_body rd' n).
Proof.
  destruct n as [|items|o]; cbn [render_body].
  - apply below_refl.
  - apply below_bind; [|intros; apply below_refl].
    apply below_mapM. intros x. apply renderNode_below.
  - apply renderNode_below.
Qed.
End Monotone.

(** A result obtained with some fuel is obtained with any larger fuel. *)
Lemma render_fuel_S fuel : forall n, below (render fuel n) (render (S fuel) n).
Proof.
  induction fuel as [|fuel IH]; intros n.
  - intros r H. discriminate H.
  - rewrite !render_S. apply render_body_below. exact IH.
Qed.

Lemma render_fuel_mono fuel fuel' n r :
  fuel <= fuel' -> render fuel n = Some r -> render fuel' n = Some r.
Proof.
  induction 1 as [|m Hle IH]; intros H; [exact H|].
  apply render_fuel_S. now apply IH.
Qed.

(** *** Text nodes *)

Lemma render_text_obj fuel o :
  String.eqb (type o) "text" = true ->
  render (S fuel) (Obj o) = textResolver (render fuel) o None.
Proof.
  intros Et. rewrite render_S. cbn [render_body renderNode].
  now rewrite (resolvers_get_text _ _ Et), Et.
Qed.

(** A text node that has both [text] and [marks] re-enters [render] on
    itself before the fold starts: no amount of fuel is enough. *)
Lemma render_marked_text_never_returns fuel o txt ms :
  String.eqb (type o) "text" = true ->
  text o = Some txt -> marks o = Some ms ->
  render fuel (Obj o) = None.
Proof.
  intros Et Ht Hm. induction fuel as [|fuel IH]; [reflexivity|].
  rewrite (render_text_obj _ _ Et). unfold textResolver.
  rewrite Ht, Hm, IH. reflexivity.
Qed.


(** *** Block nodes *)

Lemma render_block_obj fuel o r :
  String.eqb (type o) "text" = false ->
  resolvers_get (resolvers (render fuel)) (type o) = Some r ->
  render (S fuel) (Obj o) =
    (children <- render_children (render fuel) (content o) ;; r o children).
Proof.
  intros Et Hr. rewrite render_S. cbn [render_body renderNode].
  now rewrite Hr, Et.
Qed.

Lemma render_unregistered fuel o :
  is_registered (type o) = false ->
  render (S fuel) (Obj o) = Some ([no_resolver (type o)], Return EmptyString).
Proof.
  intros H. rewrite render_S. cbn [render_body renderNode].
  now rewrite (resolvers_get_unregistered _ _ H).
Qed.

Lemma renderNode_unregistered rd o :
  is_registered (type o) = false ->
  renderNode rd (Obj o) = Some ([no_resolver (type o)], Return EmptyString).
Proof.
  intros H. cbn [renderNode]. now rewrite (resolvers_get_unregistered _ _ H).
Qed.

(** A registered block whose only child never comes back never comes back
    either. *)
Lemma render_only_child_never_returns o c :
  is_registered (type o) = true -> String.eqb (type o) "text" = false ->
  content o = Some [c] -> (forall fuel, render fuel c = None) ->
  forall fuel, render fuel (Obj o) = None.
Proof.
  intros Hreg Et Hc Hnone [|fuel]; [reflexivity|].
  destruct (resolvers_get_registered (render fuel) _ Hreg) as [r Hr].
  rewrite (render_block_obj _ _ _ Et Hr), Hc. cbn [render_children mapM].
  now rewrite Hnone.
Qed.

End RenderFacts.

(** ** Termination away from marked text *)

Module Termination.
Import Js Run RunFacts RitchText Registry RegistryFacts RenderFacts Shape.
Local Open Scope run_scope.

Lemma depth_in (x : Node) (items : list Node) :
  In x items -> depth x <= list_max (map depth items).
Proof.
  intros H.
  assert (F : Forall (fun k => k <= list_max (map depth items)) (map depth items))
    by (apply list_max_le; lia).
  rewrite Forall_forall in F. apply F. now apply in_map.
Qed.

Lemma bind_total {A B} (m : run A) (k : A -> run B) :
  (exists r, m = Some r) -> (forall a, exists r, k a = Some r) ->
  exists r, bind m k = Some r.
Proof.
  intros [[l [a|e]] ->] Hk; cbn [bind].
  - destruct (Hk a) as [[l' c] ->]. eexists; reflexivity.
  - eexists; reflexivity.
Qed.

Lemma renderNode_total rd n :
  mark_free n = true ->
  (forall o items x, n = Obj o -> content o = Some items -> In x items ->
                     exists r, rd x = Some r) ->
  exists r, renderNode rd n = Some r.
Proof.
  intros Hfree Hkids. destruct n as [|items|o]; cbn [renderNode];
    try (eexists; reflexivity).
  destruct (String.eqb (type o) "text") eqn:Et.
  - rewrite (resolvers_get_text _ _ Et). unfold textResolver.
    cbn [mark_free] in Hfree. unfold marked_text in Hfree. rewrite Et in Hfree.
    destruct (text o); [|eexists; reflexivity].
    destruct (marks o); [discriminate Hfree | eexists; reflexivity].
  - destruct (resolvers_get (resolvers rd) (type o)) as [r|] eqn:Er;
      [|eexists; reflexivity].
    apply bind_total.
    + destruct (content o) as [items|] eqn:Ec; cbn [render_children];
        [|eexists; reflexivity].
      apply bind_total; [|intros; eexists; reflexivity].
      apply mapM_total. intros x Hx. exact (Hkids o items x eq_refl Ec Hx).
    + intros ch. destruct (template_returns r o ch (resolvers_get_template _ _ _ Et Er))
        as [s ->]. eexists; reflexivity.
Qed.

(** On a tree without marked text nodes [render] comes back as soon as
    the fuel exceeds the depth of the tree. *)
Lemma render_terminates_mark_free fuel :
  forall n, mark_free n = true -> depth n < fuel -> exists r, render fuel n = Some r.
Proof.
  induction fuel as [|fuel IH]; intros n Hfree Hd; [lia|].
  rewrite render_S. destruct n as [|items|o]; cbn [render_body].
  - eexists; reflexivity.
  - apply bind_total; [|intros; eexists; reflexivity].
    apply mapM_total. intros x Hx.
    cbn [mark_free] in Hfree. rewrite forallb_forall in Hfree.
    cbn [depth] in Hd. pose proof (depth_in x items Hx) as Hdx.
    apply renderNode_total; [now apply Hfree|].
    intros o kids y -> Hc Hy. apply IH.
    + specialize (Hfree _ Hx). cbn [mark_free] in Hfree. rewrite Hc in Hfree.
      apply andb_prop in Hfree as [_ Hk]. rewrite forallb_forall in Hk. now apply Hk.
    + pose proof (depth_in y kids Hy) as Hdy. cbn [depth] in Hdx. rewrite Hc in Hdx. lia.
  - apply renderNode_total; [exact Hfree|].
    intros o' kids y [= <-] Hc Hy. apply IH.
    + cbn [mark_free] in Hfree. rewrite Hc in Hfree.
      apply andb_prop in Hfree as [_ Hk]. rewrite forallb_forall in Hk. now apply Hk.
    + pose proof (depth_in y kids Hy) as Hdy. cbn [depth] in Hd. rewrite Hc in Hd. lia.
Qed.

End Termination.

(** ** The image URL builder: properties *)

Module ImageFacts.
Import Js JsFacts Image ImageSpec.

Lemma push_if_app (c : bool) (x : string) (p : list string) :
  push_if c x p = (p ++ (if c then [x] else []))%list.
Proof. destruct c; cbn [push_if]; [reflexivity | now rewrite app_nil_r]. Qed.

Ltac segment_cases f k :=
  unfold filter_segment, call, opt_truthy, opt_to_string, includes;
  destruct (get f k) as [v|]; cbn; [|reflexivity];
  destruct (truthy v); cbn; try reflexivity;
  match goal with
  | |- context [if ?b then _ else _] => destruct b; reflexivity
  | _ => idtac
  end.

(** The pushes of lines 20-26 build the list of the applicable filters in
    the declared order. *)
Lemma filterParams_of_expected (f : object) :
  filterParams_of f = expected_filters f.
Proof.
  unfold filterParams_of, expected_filters, filter_order.
  rewrite !push_if_app. cbn [flat_map app].
  rewrite <- !app_assoc.
  repeat (f_equal; [|]); try rewrite app_nil_r.
  all: repeat match goal with
       | |- (_ ++ _)%list = (_ ++ _)%list => f_equal
       end.
  - segment_cases f "blur".
  - segment_cases f "quality".
  - segment_cases f "brightness".
  - segment_cases f "fill".
  - segment_cases f "grayscale".
  - segment_cases f "rotate".
  - segment_cases f "format".
Qed.

Lemma get_unread (f : object) (k k' : string) (v : value) :
  k <> k' -> get ((k, v) :: f) k' = get f k'.
Proof. intros H. apply get_skip. now apply String.eqb_neq. Qed.

(** A key the code never reads changes nothing. *)
Lemma filterParams_of_unread (f : object) (k : string) (v : value) :
  ~ In k filter_order -> filterParams_of ((k, v) :: f) = filterParams_of f.
Proof.
  intros H. unfold filterParams_of.
  rewrite !get_unread; [reflexivity| ..];
    intros ->; apply H; cbn; tauto.
Qed.

Lemma dim_positive (field : option Z) :
  (0 <? dim field)%Z = match field with Some n => (0 <? n)%Z | None => false end.
Proof.
  destruct field as [n|]; cbn [dim]; [|reflexivity].
  destruct (Z.eqb_spec n 0) as [->|]; reflexivity.
Qed.

Lemma dim_of_positive (n : Z) : (0 <? n)%Z = true -> dim (Some n) = n.
Proof.
  intros H. cbn [dim]. destruct (Z.eqb_spec n 0) as [->|]; [discriminate H | reflexivity].
Qed.

(** The source string for an options object, as the code concatenates it. *)
Lemma optimizeImage_object_src (base : string) (o : options) :
  src (optimizeImage base (OObject o)) =
    (base ++ "/m/") ++ dims_segment o ++ filters_segment (expected_filters (bag o)).
Proof.
  unfold optimizeImage. cbn [arg_falsy w_of h_of].
  assert (Hp : filterParams (OObject o) = expected_filters (bag o)).
  { unfold filterParams, bag. destruct (filters o); [apply filterParams_of_expected | reflexivity]. }
  rewrite Hp, !dim_positive. unfold dims_segment.
  destruct (width o) as [w|], (height o) as [h|]; cbn [andb];
    try (destruct (0 <? w)%Z eqn:Ew); try (destruct (0 <? h)%Z eqn:Eh); cbn [andb];
    try rewrite (dim_of_positive _ Ew); try rewrite (dim_of_positive _ Eh);
    destruct (expected_filters (bag o)) as [|x fs]; cbn [length Nat.ltb Nat.leb filters_segment src];
    rewrite ?append_assoc, ?append_empty_r; reflexivity.
Qed.

(** With both a dimensions segment and a filter the two are written
    without a separator. *)
Example sized_blur_src :
  src (optimizeImage "img" (OObject sized_blur)) = "img/m/100x200filters:blur(5)".
Proof. reflexivity. Qed.

End ImageFacts.

(** ** The image URL builder: the claims *)

Module ImageClaims.
Import Js JsFacts Image ImageSpec ImageFacts.

(** C9, as stated, fails: with filters and no dimensions the source still
    carries the [/m/] marker in front of the filter list, so it is not the
    base followed by [/filters:blur(5)]; and an empty options object gives
    [img/m/], not the base. *)
Lemma filters_without_dimensions_keep_marker :
  src (optimizeImage "img" (OObject blur_only)) = "img/m/filters:blur(5)"
  /\ src (optimizeImage "img" (OObject blur_only)) <> "img/filters:blur(5)"
  /\ src (optimizeImage "img" (OObject empty_options)) <> "img".
Proof. split; [reflexivity | split; intros H; vm_compute in H; discriminate H]. Qed.

(** C9, amended: for an options object that does not give both a
    dimensions segment and a filter segment, the source is the base, then
    [/m/], then [{w}x{h}] when width and height are both positive, then
    [filters:f1:...:fn] when at least one filter applies.  The filters are
    listed in the order blur, quality, brightness, fill, grayscale, rotate,
    format; a missing or falsy one is left out, rotate needs a value among
    90, 180, 270 and format one among webp, png, jpeg; a key outside that
    list changes nothing. *)
Theorem optimizeImage_src_segments (base : string) (o : options) :
  both_positive o = false \/ expected_filters (bag o) = [] ->
  src (optimizeImage base (OObject o)) =
    (base ++ "/m/") ++ dims_segment o ++ filters_segment (expected_filters (bag o))
  /\ filterParams (OObject o) = expected_filters (bag o)
  /\ (forall k v, ~ In k filter_order ->
        filterParams (OObject (mkOptions (width o) (height o) (loading o) (class o)
                                         (Some ((k, v) :: bag o))))
        = filterParams (OObject o)).
Proof.
  intros _. split; [apply optimizeImage_object_src|]. split.
  - unfold filterParams, bag. destruct (filters o); [apply filterParams_of_expected | reflexivity].
  - intros k v Hk. cbn [filterParams filters]. rewrite (filterParams_of_unread _ _ _ Hk).
    unfold bag. destruct (filters o); reflexivity.
Qed.

Lemma optimizeImage_src_segments_witness :
  src (optimizeImage "img" (OObject blur_only)) = "img/m/filters:blur(5)".
Proof.
  exact (proj1 (optimizeImage_src_segments "img" blur_only (or_introl eq_refl))).
Defined.

(** C10: truthy options that give neither a dimensions segment nor a
    filter segment return the source followed by [/m/]; falsy options
    return the source unchanged. *)
Theorem optimizeImage_bare_marker (base : string) (a : options_arg) :
  no_segment a ->
  src (optimizeImage base a) = if arg_falsy a then base else base ++ "/m/".
Proof.
  intros H. destruct a as [|[|]|o]; try reflexivity.
  destruct H as [Hd Hf]. rewrite optimizeImage_object_src, Hf. cbn [arg_falsy filters_segment].
  unfold dims_segment. unfold both_positive in Hd.
  destruct (width o), (height o); try rewrite Hd; now rewrite !append_empty_r.
Qed.

Lemma optimizeImage_bare_marker_witness :
  src (optimizeImage "img" (OObject empty_options)) = "img/m/"
  /\ src (optimizeImage "img" (OBool true)) = "img/m/"
  /\ src (optimizeImage "img" (OBool false)) = "img"
  /\ src (optimizeImage "img" OUndefined) = "img".
Proof.
  split; [|split; [|split]].
  - apply (optimizeImage_bare_marker "img" (OObject empty_options)). split; reflexivity.
  - apply (optimizeImage_bare_marker "img" (OBool true)). exact I.
  - apply (optimizeImage_bare_marker "img" (OBool false)). exact I.
  - apply (optimizeImage_bare_marker "img" OUndefined). exact I.
Defined.

End ImageClaims.

(** ** Marks and links *)

Module MarkFacts.
Import Js JsFacts Run RunFacts RitchText Registry RegistryFacts RenderFacts Marks Links Examples.
Local Open Scope run_scope.

(** The node the fold hands to [render] for a plain mark comes back
    wrapped in the element of the mark. *)
Lemma render_plain_mark fuel (m : Mark) (acc : string) :
  plain_mark m ->
  render (S fuel) (mark_node m acc) = Some ([], Return (wrap_mark m acc)).
Proof.
  unfold plain_mark, wrap_mark, mark_element. intros H.
  rewrite render_S. unfold mark_node. cbn [render_body renderNode type content].
  repeat match goal with
         | |- context [String.eqb (mark_type m) ?k] =>
             destruct (String.eqb (mark_type m) k) eqn:E;
             [apply String.eqb_eq in E; rewrite E; reflexivity | clear E]
         end.
  now contradiction H.
Qed.

Lemma wrap_marks_cons (m : Mark) (ms : list Mark) (inner : string) :
  wrap_marks (m :: ms) inner = wrap_marks ms (wrap_mark m inner).
Proof. unfold wrap_marks. cbn [rev]. now rewrite fold_right_app. Qed.

(** The last mark of the list is the outermost element. *)
Lemma wrap_marks_snoc (m : Mark) (ms : list Mark) (inner : string) :
  wrap_marks (ms ++ [m]) inner = wrap_mark m (wrap_marks ms inner).
Proof. unfold wrap_marks. now rewrite rev_app_distr. Qed.

Lemma reduce_plain_marks fuel (ms : list Mark) (inner : string) :
  Forall plain_mark ms ->
  reduceM (fun acc mark => render (S fuel) (mark_node mark acc)) ms inner
  = Some ([], Return (wrap_marks ms inner)).
Proof.
  intros H. revert inner. induction H as [|m ms Hm _ IH]; intros inner.
  - reflexivity.
  - cbn [reduceM]. rewrite (render_plain_mark _ _ _ Hm). cbn [bind].
    now rewrite IH, wrap_marks_cons.
Qed.

Lemma href_switch (linktype href : option value) :
  (if includes [VStr LinkTypes.ASSET; VStr LinkTypes.URL] linktype
   then opt_to_string href
   else if includes [VStr LinkTypes.EMAIL] linktype
   then "mailto:" ++ opt_to_string href
   else if includes [VStr LinkTypes.STORY] linktype
   then opt_to_string href
   else EmptyString) = expected_href linktype href.
Proof.
  unfold expected_href, includes.
  destruct linktype as [[s| | |]|]; try reflexivity.
  cbn [existsb strict_eqb orb].
  unfold LinkTypes.ASSET, LinkTypes.URL, LinkTypes.EMAIL, LinkTypes.STORY.
  destruct (String.eqb s "asset") eqn:E1; [apply String.eqb_eq in E1; now subst|].
  destruct (String.eqb s "url") eqn:E2; [apply String.eqb_eq in E2; now subst|].
  destruct (String.eqb s "email") eqn:E3; [apply String.eqb_eq in E3; now subst|].
  destruct (String.eqb s "story") eqn:E4; [apply String.eqb_eq in E4; now subst|].
  cbn [orb].
  apply String.eqb_neq in E1, E2, E3, E4.
  repeat match goal with
         | |- context [match ?x with _ => _ end] =>
             is_var x; destruct x; try reflexivity; try congruence
         end.
Qed.

Lemma target_fragment (target : option value) :
  (if opt_truthy target
   then " target=" ++ dquote ++ opt_to_string target ++ dquote
   else EmptyString) = expected_target target.
Proof.
  destruct target as [v|]; [|reflexivity]. cbn. destruct (truthy v); reflexivity.
Qed.

(** The anchor the link resolver writes, for any node object. *)
Lemma linkResolver_expected (o : fields Node) (children : option (list string)) :
  linkResolver o children
  = Some ([], Return ("<a " ++ attrsToString (attrs o)
                      ++ " href=" ++ dquote
                      ++ expected_href (attr o "linktype") (attr o "href") ++ dquote
                      ++ expected_target (attr o "target")
                      ++ ">" ++ opt_string (text o) ++ "</a>")).
Proof.
  unfold linkResolver, ret. now rewrite href_switch, target_fragment.
Qed.

(** The node the fold hands to [render] for a link or anchor mark. *)
Lemma render_link_mark fuel (m : Mark) (acc : string) :
  link_mark m ->
  render (S fuel) (mark_node m acc)
  = Some ([], Return ("<a " ++ attrsToString (mark_attrs m)
                      ++ " href=" ++ dquote
                      ++ expected_href (mark_attr m "linktype") (mark_attr m "href") ++ dquote
                      ++ expected_target (mark_attr m "target")
                      ++ ">" ++ acc ++ "</a>")).
Proof.
  intros H. rewrite render_S. unfold mark_node. cbn [render_body renderNode type content].
  assert (Hl : resolvers_get (resolvers (render fuel)) (mark_type m) = Some linkResolver
               /\ String.eqb (mark_type m) "text" = false)
    by (destruct H as [-> | ->]; split; reflexivity).
  destruct Hl as [-> ->]. cbn [render_children bind ret app].
  rewrite linkResolver_expected. reflexivity.
Qed.

End MarkFacts.

(** ** The renderer: the claims *)

Module RenderClaims.
Import Js JsFacts Run RunFacts RitchText Escape EscapeFacts Registry RegistryFacts.
Import RenderFacts Marks Links Examples MarkFacts.
Local Open Scope run_scope.

(** C1, at the failing input [{type: "text", text: "a", marks: [{type:
    "bold"}]}]: the text resolver evaluates [render(node)] on the very node
    it was given before the fold over the marks starts, so the call re-enters
    itself and no depth of the call stack is enough for it to come back.
    The same holds for every text node that has a [marks] array, the empty
    one included. *)
Theorem marked_text_render_never_returns :
  forall fuel,
    render fuel marked_a = None
    /\ (forall txt ms, render fuel (text_node txt (Some ms)) = None).
Proof.
  intros fuel.
  assert (H : forall txt ms, render fuel (text_node txt (Some ms)) = None).
  { intros txt ms. unfold text_node.
    now apply (render_marked_text_never_returns fuel _ txt ms). }
  split; [apply (H "a" [bold]) | exact H].
Qed.

(** C2, at the failing input [{type: "text", text: "text", marks: [{type:
    "bold"}, {type: "italic"}]}]: the text resolver asks [render] for the
    node it was given before it folds over the marks, so neither the resolver
    nor [render] comes back, and the nested elements are never written. *)
Theorem bold_italic_text_never_returns :
  forall fuel,
    render fuel bold_italic_text = None
    /\ textResolver (render fuel)
         (mkFields "text" None None (Some "text") (Some [bold; italic])) None = None.
Proof.
  intros fuel.
  assert (H : forall f, render f bold_italic_text = None).
  { intros f. unfold bold_italic_text, text_node.
    now apply (render_marked_text_never_returns f _ "text" [bold; italic]). }
  split; [apply H|].
  unfold textResolver. cbn [text marks].
  fold (text_node "text" (Some [bold; italic])). fold bold_italic_text.
  now rewrite H.
Qed.

(** C3, at the failing input, the document of the scenario: the paragraph
    holds a text node with [text] and [marks], whose rendering never comes
    back, so neither the paragraph nor the document is ever written. *)
Theorem document_bold_never_returns :
  forall fuel, render fuel document_bold = None.
Proof.
  assert (Htext : forall fuel, render fuel (text_node "Hi <there>" (Some [bold])) = None).
  { intros f. now apply (render_marked_text_never_returns f _ "Hi <there>" [bold]). }
  assert (Hpar : forall fuel,
             render fuel (block "paragraph" None [text_node "Hi <there>" (Some [bold])]) = None).
  { apply (render_only_child_never_returns _ (text_node "Hi <there>" (Some [bold])));
      try reflexivity.
    exact Htext. }
  apply (render_only_child_never_returns _
           (block "paragraph" None [text_node "Hi <there>" (Some [bold])]));
    try reflexivity.
  exact Hpar.
Qed.



(** C6: [render(null)] returns the empty string, emits the "No content to
    render" warning and throws nothing. *)
Theorem render_null_is_empty :
  forall fuel, render (S fuel) Null = Some ([no_content], Return EmptyString).
Proof.
  intros fuel. rewrite render_S. cbn [render_body].
  unfold log, ret. cbn [bind app]. reflexivity.
Qed.

(** C7, at the failing input [{type: "heading", attrs: {level: L},
    content: [{type: "text", text: "Title", marks: [{type: "bold"}]}]}]: for
    every level the heading never comes back, because its text child never
    does; no opening or closing tag is written. *)
Theorem heading_bold_never_returns :
  forall fuel (L : Z), render fuel (heading_bold (VNum L)) = None.
Proof.
  intros fuel L. revert fuel.
  apply (render_only_child_never_returns _ (text_node "Title" (Some [bold])));
    try reflexivity.
  intros f. now apply (render_marked_text_never_returns f _ "Title" [bold]).
Qed.

(** C8, at the failing input [{type: "text", text: "go", marks: [{type:
    "link", attrs: {linktype: "email", href: "a@b.com"}}]}]: the text node
    never comes back, so the link resolver is never reached and no anchor is
    written. *)
Theorem link_text_never_returns :
  forall fuel, render fuel link_text = None.
Proof.
  intros fuel. unfold link_text, text_node.
  now apply (render_marked_text_never_returns fuel _ "go" [email_link]).
Qed.

End RenderClaims.

(** ** Nodes without a resolver *)

Module ContextFacts.
Import Js JsFacts Run RunFacts RitchText Registry RegistryFacts RenderFacts Context.
Local Open Scope run_scope.

Lemma bind_assoc {A B C} (m : run A) (g : A -> run B) (k : B -> run C) :
  bind (bind m g) k = bind m (fun a => bind (g a) k).
Proof.
  destruct m as [[l [a|e]]|]; cbn [bind]; try reflexivity.
  destruct (g a) as [[l' [b|e]]|]; cbn [bind]; try reflexivity.
  destruct (k b) as [[l'' c]|]; [|reflexivity].
  now rewrite app_assoc.
Qed.

Lemma bind_ret_l {A B} (a : A) (k : A -> run B) : bind (ret a) k = k a.
Proof. cbn. destruct (k a) as [[l c]|]; reflexivity. Qed.

Lemma bind_ext {A B} (m : run A) (k k' : A -> run B) :
  (forall a, k a = k' a) -> bind m k = bind m k'.
Proof.
  intros H. destruct m as [[l [a|e]]|]; cbn [bind]; try reflexivity. now rewrite H.
Qed.

Lemma bind_mapM_cons {A B C} (f : A -> run B) (x : A) (l : list A) (k : list B -> run C) :
  bind (mapM f (x :: l)) k
  = bind (f x) (fun y => bind (mapM f l) (fun ys => k (y :: ys))).
Proof.
  cbn [mapM]. rewrite bind_assoc. apply bind_ext. intros y.
  rewrite bind_assoc. apply bind_ext. intros ys. apply bind_ret_l.
Qed.

(** What was logged before does not change what is returned. *)
Lemma returned_after_log {A B} (d : list diagnostic) (a : A) (k : A -> run B) :
  returned (bind (Some (d, Return a)) k) = returned (k a).
Proof. cbn. destruct (k a) as [[l c]|]; reflexivity. Qed.

(** A sibling that renders to the empty string can be dropped. *)
Lemma same_children_insert rd (l1 l2 : list Node) (x : Node) d :
  rd x = Some (d, Return EmptyString) ->
  same_children rd (l1 ++ x :: l2) (l1 ++ l2).
Proof.
  intros Hx C. induction l1 as [|y l1 IH]; intros k k' Hk; cbn [app].
  - rewrite bind_mapM_cons, Hx, returned_after_log.
    apply returned_bind; [reflexivity|]. intros ys. apply Hk.
    now rewrite concat_all_cons.
  - rewrite !bind_mapM_cons. apply returned_bind; [reflexivity|]. intros b.
    apply IH. intros ys ys' H. apply Hk. now rewrite !concat_all_cons, H.
Qed.

(** A sibling can be replaced by one that returns the same. *)
Lemma same_children_replace rd (l1 l2 : list Node) (x x' : Node) :
  returned (rd x) = returned (rd x') ->
  same_children rd (l1 ++ x :: l2) (l1 ++ x' :: l2).
Proof.
  intros Hx C k k' Hk. apply returned_bind.
  - now apply returned_mapM_replace.
  - intros ys. now apply Hk.
Qed.

(** A template does not read [content]. *)
Lemma template_content r ty a t ms (c c' : option (list Node)) ch :
  template r -> r (mkFields ty a c t ms) ch = r (mkFields ty a c' t ms) ch.
Proof. intros []; reflexivity. Qed.

Lemma hold_same_output (h : holder) fuel (items items' : list Node) :
  same_children (render fuel) items items' ->
  same_children (renderNode (render fuel)) items items' ->
  same_output fuel (hold h items) (hold h items').
Proof.
  intros Hrd Hnode. destruct h as [|ty a t ms]; cbn [hold]; split.
  - reflexivity.
  - rewrite !render_S. cbn [render_body]. apply Hnode.
    intros ys ys' H. cbn. now rewrite H.
  - cbn [renderNode type content].
    destruct (String.eqb ty "text") eqn:Et.
    + rewrite (resolvers_get_text _ _ Et). unfold textResolver. cbn [text marks].
      destruct t as [txt|]; [|reflexivity]. destruct ms as [ms|]; [|reflexivity].
      rewrite !(render_marked_text_never_returns fuel _ txt ms); try reflexivity;
        exact Et.
    + destruct (resolvers_get (resolvers (render fuel)) ty) as [r|] eqn:Er; [|reflexivity].
      cbn [render_children]. rewrite !bind_assoc. apply Hrd.
      intros ys ys' H. rewrite !bind_ret_l.
      rewrite (template_children r _ ys ys' (resolvers_get_template _ _ _ Et Er) H).
      now rewrite (template_content r ty a t ms (Some items) (Some items') (Some ys')
                     (resolvers_get_template _ _ _ Et Er)).
  - rewrite !render_S. cbn [render_body renderNode type content].
    destruct (String.eqb ty "text") eqn:Et.
    + rewrite (resolvers_get_text _ _ Et). unfold textResolver. cbn [text marks].
      destruct t as [txt|]; [|reflexivity]. destruct ms as [ms|]; [|reflexivity].
      rewrite !(render_marked_text_never_returns fuel _ txt ms); try reflexivity;
        exact Et.
    + destruct (resolvers_get (resolvers (render fuel)) ty) as [r|] eqn:Er; [|reflexivity].
      cbn [render_children]. rewrite !bind_assoc. apply Hrd.
      intros ys ys' H. rewrite !bind_ret_l.
      rewrite (template_children r _ ys ys' (resolvers_get_template _ _ _ Et Er) H).
      now rewrite (template_content r ty a t ms (Some items) (Some items') (Some ys')
                     (resolvers_get_template _ _ _ Et Er)).
Qed.

(** Dropping a node without a resolver from a list of siblings leaves the
    output of the holder of the list unchanged. *)
Lemma drop_unregistered_sibling (h : holder) fuel (o : fields Node) (l1 l2 : list Node) :
  is_registered (type o) = false ->
  same_output (S fuel) (hold h (l1 ++ Obj o :: l2)) (hold h (l1 ++ l2)).
Proof.
  intros H. apply hold_same_output.
  - apply (same_children_insert _ _ _ _ [no_resolver (type o)]).
    now apply render_unregistered.
  - apply (same_children_insert _ _ _ _ [no_resolver (type o)]).
    now apply renderNode_unregistered.
Qed.

(** Equal outputs of a node carry over to every ancestor. *)
Lemma same_output_plug (c : context) (k : nat) (x x' : Node) :
  (forall fuel, k <= fuel -> same_output fuel x x') ->
  forall fuel, ancestors c + k <= fuel -> same_output fuel (plug c x) (plug c x').
Proof.
  intros Hx. induction c as [|h before after c IH]; intros fuel Hf; cbn [plug].
  - apply Hx. cbn [ancestors] in Hf. lia.
  - cbn [ancestors] in Hf. destruct fuel as [|fuel]; [lia|].
    apply hold_same_output.
    + apply same_children_replace. apply (IH fuel). lia.
    + apply same_children_replace. apply (IH (S fuel)). lia.
Qed.

End ContextFacts.

(** ** Unknown node types: the claim *)

Module ResolverClaims.
Import Js JsFacts Run RunFacts RitchText Registry RegistryFacts RenderFacts.
Import Context ContextFacts Examples.

(** C5: a node whose type has no registered resolver renders to the
    empty string, with the "No resolver found" diagnostic and without
    throwing; and wherever the node sits among siblings, in an array or in
    the content of a node, under any chain of ancestors, the whole tree
    returns what it returns with the node taken out. *)
Theorem unregistered_type_renders_empty (o : fields Node) :
  is_registered (type o) = false ->
  (forall fuel,
      render (S fuel) (Obj o) = Some ([no_resolver (type o)], Return EmptyString))
  /\ (forall (c : context) (h : holder) (l1 l2 : list Node) fuel,
        ancestors c + 2 <= fuel ->
        returned (render fuel (plug c (hold h (l1 ++ Obj o :: l2))))
        = returned (render fuel (plug c (hold h (l1 ++ l2))))).
Proof.
  intros H. split.
  - intros fuel. now apply render_unregistered.
  - intros c h l1 l2 [|fuel] Hf; [lia|].
    apply (same_output_plug c 1).
    + intros [|f] Hle; [lia|]. now apply drop_unregistered_sibling.
    + lia.
Qed.

Lemma unregistered_type_renders_empty_witness :
  render 1 (Obj video)
  = Some ([ConsoleError ["<Storyblok>"; "No resolver found for node type video"]],
          Return EmptyString)
  /\ returned (render 3 (block "document" None
                           [block "paragraph" None [Obj video; text_node "a" None]]))
     = Some (Return "<div><p >a</p></div>").
Proof.
  split.
  - exact (proj1 (unregistered_type_renders_empty video eq_refl) 0).
  - refine (eq_trans (proj2 (unregistered_type_renders_empty video eq_refl)
                        (Inside (HObj "document" None None None) [] [] Hole)
                        (HObj "paragraph" None None None) [] [text_node "a" None] 3 (le_n 3))
                     _).
    reflexivity.
Defined.

End ResolverClaims.

(** ** Escaping: further properties *)

Module EscapeMore.
Import Js JsFacts RitchText Escape EscapeFacts Chars.

Lemma occurs_app (c : ascii) (x y : string) :
  occurs c (x ++ y) = occurs c x || occurs c y.
Proof.
  induction x as [|a x IH]; cbn [append occurs]; [reflexivity|].
  now rewrite IH, orb_assoc.
Qed.

Lemma escape_char_clean (c a : ascii) :
  Ascii.eqb c "&" = false -> special c = true -> occurs c (escape_char a) = false.
Proof.
  intros Hamp Hc. unfold escape_char.
  destruct (Ascii.eqb a "&") eqn:E1; [|destruct (Ascii.eqb a "<") eqn:E2;
    [|destruct (Ascii.eqb a ">") eqn:E3; [|destruct (Ascii.eqb a "034") eqn:E4;
    [|destruct (Ascii.eqb a "'") eqn:E5]]]].
  1-5: unfold special in Hc; rewrite Hamp in Hc; cbn [orb] in Hc;
       repeat (apply orb_prop in Hc; destruct Hc as [Hc|Hc]);
       apply Ascii.eqb_eq in Hc; subst c; reflexivity.
  cbn [occurs]. rewrite orb_false_r.
  destruct (Ascii.eqb a c) eqn:E; [|reflexivity].
  apply Ascii.eqb_eq in E. subst c. unfold special in Hc.
  now rewrite E1, E2, E3, E4, E5 in Hc.
Qed.

Lemma escape_once_clean (c : ascii) (s : string) :
  Ascii.eqb c "&" = false -> special c = true -> occurs c (escape_once s) = false.
Proof.
  intros Hamp Hc. induction s as [|a s IH]; [reflexivity|].
  cbn [escape_once]. now rewrite occurs_app, IH, (escape_char_clean c a Hamp Hc).
Qed.

Lemma length_app (x y : string) : String.length (x ++ y) = String.length x + String.length y.
Proof. induction x as [|a x IH]; cbn; [reflexivity | now rewrite IH]. Qed.

Lemma escape_char_length (a : ascii) :
  (if special a then 4 else 1) <= String.length (escape_char a).
Proof.
  unfold escape_char, special.
  destruct (Ascii.eqb a "&"); [cbn; lia|].
  destruct (Ascii.eqb a "<"); [cbn; lia|].
  destruct (Ascii.eqb a ">"); [cbn; lia|].
  destruct (Ascii.eqb a "034"); [cbn; lia|].
  destruct (Ascii.eqb a "'"); cbn; lia.
Qed.

Lemma escape_once_length (s : string) :
  String.length s + (if has_special s then 1 else 0) <= String.length (escape_once s).
Proof.
  induction s as [|a s IH]; [cbn; lia|].
  cbn [escape_once has_special String.length]. rewrite length_app.
  pose proof (escape_char_length a) as Ha.
  destruct (special a), (has_special s); cbn [orb] in *; lia.
Qed.

Lemma escape_once_plain (s : string) : has_special s = false -> escape_once s = s.
Proof.
  induction s as [|a s IH]; [reflexivity|].
  cbn [has_special escape_once]. intros H. apply orb_false_elim in H as [Ha Hs].
  rewrite (IH Hs). unfold escape_char. unfold special in Ha.
  repeat (apply orb_false_elim in Ha; destruct Ha as [Ha ?]).
  now repeat match goal with H : Ascii.eqb a _ = false |- _ => rewrite H; clear H end.
Qed.

(** X1: the escaped text holds none of the characters [<], [>], the double
    quote and the single quote, whatever the text was. *)
Theorem escapeHtml_output_has_no_markup (s : string) :
  occurs "<" (escapeHtml s) = false
  /\ occurs ">" (escapeHtml s) = false
  /\ occurs "034" (escapeHtml s) = false
  /\ occurs "'" (escapeHtml s) = false.
Proof.
  rewrite escapeHtml_single_pass.
  repeat split; apply escape_once_clean; reflexivity.
Qed.

(** X2: escaping leaves a text unchanged exactly when the text holds none
    of the five characters, and escaping twice gives the same as escaping
    once exactly in that case: any other text is escaped again. *)
Theorem escapeHtml_unchanged_iff_plain (s : string) :
  (escapeHtml s = s <-> has_special s = false)
  /\ (escapeHtml (escapeHtml s) = escapeHtml s <-> has_special s = false).
Proof.
  assert (H1 : escapeHtml s = s <-> has_special s = false).
  { rewrite escapeHtml_single_pass. split.
    - intros H. pose proof (escape_once_length s) as L. rewrite H in L.
      destruct (has_special s); [lia | reflexivity].
    - apply escape_once_plain. }
  split; [exact H1|]. rewrite <- H1. split.
  - apply escapeHtml_injective.
  - intros H. now rewrite H.
Qed.

Lemma escapeHtml_unchanged_iff_plain_witness :
  escapeHtml "plain text" = "plain text"
  /\ escapeHtml (escapeHtml "a<b") <> escapeHtml "a<b".
Proof.
  split.
  - apply (proj1 (escapeHtml_unchanged_iff_plain "plain text")). reflexivity.
  - intros H. apply (proj2 (escapeHtml_unchanged_iff_plain "a<b")) in H. discriminate H.
Defined.

(** X3: escaping distributes over concatenation and never shortens a
    text. *)
Theorem escapeHtml_concat (x y : string) :
  escapeHtml (x ++ y) = escapeHtml x ++ escapeHtml y
  /\ String.length x <= String.length (escapeHtml x).
Proof.
  split; [apply escapeHtml_app|].
  rewrite escapeHtml_single_pass. pose proof (escape_once_length x). lia.
Qed.

End EscapeMore.

(** ** The renderer: further properties *)

Module RenderMore.
Import Js JsFacts Run RunFacts RitchText Registry RegistryFacts RenderFacts.
Import Shape Context ContextFacts Documents Examples Termination.
Local Open Scope run_scope.

Lemma mapM_Forall2 {A B} (f : A -> run B) (items : list A)
      (rs : list (list diagnostic * B)) :
  Forall2 (fun c r => f c = Some (fst r, Return (snd r))) items rs ->
  mapM f items = Some (concat (map fst rs), Return (map snd rs)).
Proof.
  induction 1 as [|c r items rs Hc _ IH]; [reflexivity|].
  cbn [mapM]. rewrite Hc, IH. cbn [bind ret map concat]. now rewrite app_nil_r.
Qed.

Lemma mapM_app {A B} (f : A -> run B) (l1 l2 : list A) :
  mapM f (l1 ++ l2)
  = bind (mapM f l1) (fun a => bind (mapM f l2) (fun b => ret (a ++ b)%list)).
Proof.
  induction l1 as [|x l1 IH]; cbn [app mapM].
  - rewrite bind_ret_l. destruct (mapM f l2) as [[l [b|e]]|]; cbn; try reflexivity.
    now rewrite app_nil_r.
  - rewrite IH.
    rewrite (bind_assoc (f x)). apply bind_ext. intros y.
    rewrite !(bind_assoc (mapM f l1)). apply bind_ext. intros a.
    rewrite bind_ret_l, (bind_assoc (mapM f l2)). apply bind_ext. intros b.
    now rewrite bind_ret_l.
Qed.

Lemma mapM_returns_each {A B} (f : A -> run B) (l : list A) g ys :
  mapM f l = Some (g, Return ys) ->
  forall x, In x l -> exists g' y, f x = Some (g', Return y).
Proof.
  revert g ys. induction l as [|a l IH]; intros g ys H x Hin; [destruct Hin|].
  cbn [mapM] in H.
  destruct (f a) as [[la [b|e]]|] eqn:Ea; cbn [bind] in H; try discriminate H.
  destruct (mapM f l) as [[ll [bs|e]]|] eqn:El; cbn [bind ret] in H; try discriminate H.
  destruct Hin as [<-|Hin]; [now exists la, b | exact (IH _ _ eq_refl x Hin)].
Qed.

Lemma block_element_lookup (o : fields Node) op cl rd :
  block_element o = Some (op, cl) ->
  String.eqb (type o) "text" = false
  /\ exists r, resolvers_get (resolvers rd) (type o) = Some r
               /\ forall ch, r o ch = ret (op ++ children_string ch ++ cl).
Proof.
  unfold block_element, block_tag. intros H.
  repeat match type of H with
         | (if String.eqb (type o) ?k then _ else _) = _ =>
             destruct (String.eqb (type o) k) eqn:E;
             [apply String.eqb_eq in E | clear E]
         | match (if String.eqb (type o) ?k then _ else _) with _ => _ end = _ =>
             destruct (String.eqb (type o) k) eqn:E;
             [apply String.eqb_eq in E | clear E]
         end;
    try discriminate H; injection H as <- <-; rewrite E;
    (split; [reflexivity|]); eexists; (split; [reflexivity|]); intros ch;
    cbv [documentResolver headingResolver nodeResolver ret];
    do 3 f_equal; cbn [append]; rewrite ?append_assoc; cbn [append];
    rewrite ?append_assoc; reflexivity.
Qed.

(** A block node is its opening tag, its joined children and its closing
    tag. *)
Lemma render_block_element fuel (o : fields Node) op cl :
  block_element o = Some (op, cl) ->
  render (S fuel) (Obj o)
  = (ch <- render_children (render fuel) (content o) ;;
     ret (op ++ children_string ch ++ cl)).
Proof.
  intros H. destruct (block_element_lookup o op cl (render fuel) H) as (Et & r & Hr & Hres).
  rewrite (render_block_obj _ _ _ Et Hr). apply bind_ext. exact Hres.
Qed.

(** X5: a block node (document, heading, paragraph, list, list item)
    whose children render to strings renders to its opening tag, the
    children's strings in document order and its closing tag, and emits the
    children's diagnostics in that order. *)
Theorem block_renders_children_in_order fuel (o : fields Node) op cl
        (items : list Node) (rs : list (list diagnostic * string)) :
  block_element o = Some (op, cl) ->
  content o = Some items ->
  Forall2 (fun c r => render fuel c = Some (fst r, Return (snd r))) items rs ->
  render (S fuel) (Obj o)
  = Some (concat (map fst rs), Return (op ++ concat_all (map snd rs) ++ cl)).
Proof.
  intros He Hc Hrs. rewrite (render_block_element _ _ _ _ He), Hc.
  cbn [render_children]. rewrite (mapM_Forall2 _ _ _ Hrs).
  cbn [bind ret children_string]. now rewrite !app_nil_r.
Qed.

Lemma block_renders_children_in_order_witness :
  render 2 (block "unordered-list" None
              [block "list-item" None []; Obj video; text_node "b" None])
  = Some ([no_resolver "video"], Return "<ul ><li ></li>b</ul>").
Proof.
  refine (eq_trans
            (block_renders_children_in_order 1
               (mkFields "unordered-list" None
                  (Some [block "list-item" None []; Obj video; text_node "b" None])
                  None None)
               "<ul >" "</ul>" _
               [([], "<li ></li>"); ([no_resolver "video"], EmptyString); ([], "b")]
               eq_refl eq_refl _) _).
  - repeat constructor.
  - reflexivity.
Defined.

(** X6: a block node without a [content] property renders the word
    [undefined] between its tags, and emits nothing. *)
Theorem block_without_content_renders_undefined fuel (o : fields Node) op cl :
  block_element o = Some (op, cl) ->
  content o = None ->
  render (S fuel) (Obj o) = Some ([], Return (op ++ "undefined" ++ cl)).
Proof.
  intros He Hc. rewrite (render_block_element _ _ _ _ He), Hc. reflexivity.
Qed.

Lemma block_without_content_renders_undefined_witness :
  render 1 (Obj (mkFields "paragraph" None None None None))
  = Some ([], Return "<p >undefined</p>").
Proof.
  exact (block_without_content_renders_undefined 0
           (mkFields "paragraph" None None None None) "<p >" "</p>" eq_refl eq_refl).
Defined.

(** X7: a heading node without [attrs.level] is rendered with the tag
    name [hundefined], in the opening and in the closing tag. *)
Theorem heading_without_level fuel (o : fields Node) log children :
  type o = "heading" -> attr o "level" = None ->
  render_children (render fuel) (content o) = Some (log, Return children) ->
  render (S fuel) (Obj o)
  = Some (log, Return ("<hundefined " ++ attrsToString (attrs o) ++ ">"
                       ++ children_string children ++ "</hundefined>")).
Proof.
  intros Hty Hl Hc.
  assert (He : block_element o
               = Some ("<hundefined " ++ attrsToString (attrs o) ++ ">", "</hundefined>")).
  { unfold block_element. now rewrite Hty, Hl. }
  rewrite (render_block_element _ _ _ _ He), Hc. cbn [bind ret].
  rewrite app_nil_r. do 3 f_equal. cbn [append]. now rewrite append_assoc.
Qed.

Lemma heading_without_level_witness :
  render 2 (block "heading" None [text_node "T" None])
  = Some ([], Return "<hundefined >T</hundefined>").
Proof.
  exact (heading_without_level 1
           (mkFields "heading" None (Some [text_node "T" None]) None None)
           [] (Some ["T"]) eq_refl eq_refl eq_refl).
Defined.

Lemma render_array_inv fuel (items : list Node) g s :
  render (S fuel) (Arr items) = Some (g, Return s) ->
  exists strs, mapM (renderNode (render fuel)) items = Some (g, Return strs)
               /\ s = concat_all strs.
Proof.
  rewrite render_S. cbn [render_body]. intros H.
  destruct (mapM (renderNode (render fuel)) items) as [[l [strs|e]]|];
    cbn [bind ret] in H; try discriminate H.
  injection H as <- <-. exists strs. now rewrite app_nil_r.
Qed.

(** X8: rendering an array is rendering its parts: when two arrays render
    to strings, their concatenation renders to the two strings joined, with
    the diagnostics of the first followed by those of the second. *)
Theorem render_array_app fuel (l1 l2 : list Node) g1 g2 s1 s2 :
  render (S fuel) (Arr l1) = Some (g1, Return s1) ->
  render (S fuel) (Arr l2) = Some (g2, Return s2) ->
  render (S fuel) (Arr (l1 ++ l2)) = Some ((g1 ++ g2)%list, Return (s1 ++ s2)).
Proof.
  intros H1 H2.
  apply render_array_inv in H1 as (a & Ha & ->).
  apply render_array_inv in H2 as (b & Hb & ->).
  rewrite render_S. cbn [render_body]. rewrite mapM_app, Ha, Hb.
  cbn [bind ret]. now rewrite !app_nil_r, concat_all_app.
Qed.

Lemma render_array_app_witness :
  render 1 (Arr ([text_node "a" None] ++ [Obj video; text_node "b" None]))
  = Some ([no_resolver "video"], Return "ab").
Proof.
  exact (render_array_app 0 [text_node "a" None] [Obj video; text_node "b" None]
           [] [no_resolver "video"] "a" "b" eq_refl eq_refl).
Defined.

(** X9: an array that holds one node object renders as the node object
    does: same diagnostics, same string or exception, and it comes back
    exactly when the node does. *)
Theorem render_singleton_array fuel (o : fields Node) :
  render (S fuel) (Arr [Obj o]) = render (S fuel) (Obj o).
Proof.
  rewrite !render_S. cbn [render_body mapM].
  destruct (renderNode (render fuel) (Obj o)) as [[l [s|e]]|]; cbn; try reflexivity.
  unfold concat_all. cbn [join]. now rewrite !app_nil_r.
Qed.

End RenderMore.

(** ** The renderer: when it comes back, and with what *)

Module RenderSafety.
Import Js JsFacts Run RunFacts RitchText Registry RegistryFacts RenderFacts.
Import Shape Context ContextFacts Documents Examples Termination RenderMore.
Local Open Scope run_scope.

(** X10: an array handed to [render] with a [null] element throws as soon
    as the elements before it have rendered; their diagnostics have been
    emitted, and no element after it is looked at. *)
Theorem render_array_null_element_throws fuel (l1 l2 : list Node) g s :
  render (S fuel) (Arr l1) = Some (g, Return s) ->
  exists e, render (S fuel) (Arr (l1 ++ Null :: l2)) = Some (g, Throw e).
Proof.
  intros H. apply render_array_inv in H as (strs & Hm & _).
  eexists. rewrite render_S. cbn [render_body]. rewrite mapM_app, Hm.
  cbn [mapM renderNode throw bind]. now rewrite app_nil_r.
Qed.

Lemma render_array_null_element_throws_witness :
  exists e, render 1 (Arr ([Obj video] ++ Null :: [marked_a]))
            = Some ([no_resolver "video"], Throw e).
Proof.
  exact (render_array_null_element_throws 0 [Obj video] [marked_a]
           [no_resolver "video"] EmptyString eq_refl).
Defined.

Lemma content_same_output fuel ty a t ms (items items' : list Node) :
  same_children (render fuel) items items' ->
  returned (render (S fuel) (Obj (mkFields ty a (Some items) t ms)))
  = returned (render (S fuel) (Obj (mkFields ty a (Some items') t ms))).
Proof.
  intros Hrd. rewrite !render_S. cbn [render_body renderNode type content].
  destruct (String.eqb ty "text") eqn:Et.
  - rewrite (resolvers_get_text _ _ Et). unfold textResolver. cbn [text marks].
    destruct t as [txt|]; [|reflexivity]. destruct ms as [ms|]; [|reflexivity].
    rewrite !(render_marked_text_never_returns fuel _ txt ms); try reflexivity;
      exact Et.
  - destruct (resolvers_get (resolvers (render fuel)) ty) as [r|] eqn:Er; [|reflexivity].
    cbn [render_children]. rewrite !bind_assoc. apply Hrd.
    intros ys ys' H. rewrite !bind_ret_l.
    rewrite (template_children r _ ys ys' (resolvers_get_template _ _ _ Et Er) H).
    now rewrite (template_content r ty a t ms (Some items) (Some items') (Some ys')
                   (resolvers_get_template _ _ _ Et Er)).
Qed.

(** X11: a [null] or [undefined] entry in the [content] of a node is
    skipped: the node returns what it returns with the entry taken out. *)
Theorem null_child_is_skipped fuel ty a t ms (l1 l2 : list Node) :
  returned (render (S (S fuel)) (Obj (mkFields ty a (Some (l1 ++ Null :: l2)%list) t ms)))
  = returned (render (S (S fuel)) (Obj (mkFields ty a (Some (l1 ++ l2)%list) t ms))).
Proof.
  apply content_same_output.
  apply (same_children_insert _ _ _ _ [no_content]). reflexivity.
Qed.

Lemma mapM_quiet {A B} (f : A -> run B) (l : list A) :
  (forall x, In x l -> exists y, f x = Some ([], Return y)) ->
  exists ys, mapM f l = Some ([], Return ys).
Proof.
  induction l as [|x l IH]; intros H; cbn [mapM]; [now eexists|].
  destruct (H x (or_introl eq_refl)) as [y ->].
  destruct IH as [ys ->]; [intros; apply H; now right|].
  now eexists.
Qed.

Lemma renderNode_quiet rd (o : fields Node) :
  tidy (Obj o) = true ->
  (forall items x, content o = Some items -> In x items ->
                   exists s, rd x = Some ([], Return s)) ->
  exists s, renderNode rd (Obj o) = Some ([], Return s).
Proof.
  cbn [tidy]. intros Ht Hkids.
  apply andb_prop in Ht as [Ht _]. apply andb_prop in Ht as [Hreg Hm].
  cbn [renderNode]. destruct (String.eqb (type o) "text") eqn:Et.
  - rewrite (resolvers_get_text _ _ Et). unfold textResolver.
    unfold marked_text in Hm. rewrite Et in Hm.
    destruct (text o); [|now eexists].
    destruct (marks o); [discriminate Hm | now eexists].
  - destruct (resolvers_get_registered rd _ Hreg) as [r Hr]. rewrite Hr.
    pose proof (resolvers_get_template _ _ _ Et Hr) as Htemp.
    destruct (content o) as [items|] eqn:Ec; cbn [render_children].
    + destruct (mapM_quiet rd items (fun x Hx => Hkids items x eq_refl Hx)) as [ys ->].
      cbn [bind ret]. destruct (template_returns r o (Some ys) Htemp) as [s ->].
      now eexists.
    + cbn [bind ret]. destruct (template_returns r o None Htemp) as [s ->].
      now eexists.
Qed.

Lemma render_tidy fuel :
  forall n, tidy n = true -> depth n < fuel ->
            exists s, render fuel n = Some ([], Return s).
Proof.
  induction fuel as [|fuel IH]; intros n Ht Hd; [lia|].
  destruct n as [| |o]; try discriminate Ht.
  rewrite render_S. cbn [render_body]. apply renderNode_quiet; [exact Ht|].
  intros items x Hc Hx. apply IH.
  - cbn [tidy] in Ht. rewrite Hc in Ht. apply andb_prop in Ht as [_ Hk].
    rewrite forallb_forall in Hk. now apply Hk.
  - pose proof (depth_in x items Hx). cbn [depth] in Hd. rewrite Hc in Hd. lia.
Qed.

(** X12: on a tidy input (a node object, or an array of node objects,
    where every node has a registered type, no text node has both [text]
    and [marks], and every [content] holds node objects only) [render] comes
    back with a string, throws nothing and emits no diagnostic, once the
    fuel exceeds the depth of the tree. *)
Theorem render_tidy_input_is_quiet fuel (n : Node) :
  tidy_input n = true -> depth n < fuel ->
  exists s, render fuel n = Some ([], Return s).
Proof.
  intros Ht Hd. destruct n as [|items|o].
  - discriminate Ht.
  - destruct fuel as [|fuel]; [lia|]. rewrite render_S. cbn [render_body].
    cbn [tidy_input] in Ht. rewrite forallb_forall in Ht.
    destruct (mapM_quiet (renderNode (render fuel)) items) as [ys ->]; [|now eexists].
    intros x Hx. pose proof (Ht x Hx) as Htx.
    destruct x as [| |o]; try discriminate Htx.
    change (renderNode (render fuel) (Obj o)) with (render (S fuel) (Obj o)).
    apply render_tidy; [exact Htx|].
    pose proof (depth_in _ items Hx). cbn [depth] in Hd. lia.
  - now apply render_tidy.
Qed.

Lemma render_tidy_input_is_quiet_witness :
  exists s, render 4 document_plain = Some ([], Return s).
Proof.
  apply (render_tidy_input_is_quiet 4 document_plain); [reflexivity | cbn; lia].
Defined.

(** X13: on any input that holds no text node with both [text] and
    [marks], whatever else it holds, [render] comes back (with a string or an
    exception) once the fuel exceeds the depth of the tree. *)
Theorem render_comes_back_without_marks fuel (n : Node) :
  mark_free n = true -> depth n < fuel ->
  exists log c, render fuel n = Some (log, c).
Proof.
  intros Hf Hd. destruct (render_terminates_mark_free fuel n Hf Hd) as [[log c] H].
  now exists log, c.
Qed.

Lemma render_comes_back_without_marks_witness :
  exists log c, render 3 (Arr [Obj video; Null; Arr []]) = Some (log, c).
Proof.
  apply (render_comes_back_without_marks 3 (Arr [Obj video; Null; Arr []]));
    [reflexivity | cbn; lia].
Defined.

Lemma plug_block_path_obj (c : context) (o : fields Node) :
  block_path c = true -> exists o', plug c (Obj o) = Obj o'.
Proof.
  destruct c as [|[|ty a t ms] before after c]; cbn [block_path plug hold];
    intros H; try discriminate H; now eexists.
Qed.

Lemma block_child_never_returns ty a t ms (items : list Node) (x : Node) :
  is_registered ty = true -> String.eqb ty "text" = false -> In x items ->
  (forall fuel, ~ returns_string (render fuel x)) ->
  forall fuel, ~ returns_string (render fuel (Obj (mkFields ty a (Some items) t ms))).
Proof.
  intros Hreg Et Hin Hx [|fuel] (log & s & H); [discriminate H|].
  destruct (resolvers_get_registered (render fuel) ty Hreg) as [r Hr].
  rewrite (render_block_obj fuel (mkFields ty a (Some items) t ms) r Et Hr) in H.
  cbn [content render_children] in H.
  destruct (mapM (render fuel) items) as [[g [ys|e]]|] eqn:Em;
    cbn [bind ret] in H; try discriminate H.
  destruct (mapM_returns_each _ _ _ _ Em x Hin) as (g' & y & Hy).
  apply (Hx fuel). now exists g', y.
Qed.

(** X14: a text node with both [text] and [marks] takes its ancestors
    with it: under any chain of node objects of registered types other than
    [text], [render] never comes back with a string for the tree, and neither
    does it for an array that holds such a tree. *)
Theorem marked_text_poisons_ancestors (c : context) (o : fields Node) txt ms :
  block_path c = true ->
  type o = "text" -> text o = Some txt -> marks o = Some ms ->
  (forall fuel, ~ returns_string (render fuel (plug c (Obj o))))
  /\ (forall fuel before after,
         ~ returns_string (render fuel (Arr (before ++ plug c (Obj o) :: after)))).
Proof.
  intros Hc Hty Ht Hm.
  assert (Hplug : forall fuel, ~ returns_string (render fuel (plug c (Obj o)))).
  { clear -Hc Hty Ht Hm. induction c as [|h before after c IH]; cbn [plug].
    - intros fuel (log & s & H).
      rewrite (render_marked_text_never_returns fuel o txt ms) in H;
        [discriminate H | now rewrite Hty | exact Ht | exact Hm].
    - destruct h as [|ty a t ms']; [discriminate Hc|].
      cbn [block_path] in Hc. apply andb_prop in Hc as [Hc Hc'].
      apply andb_prop in Hc as [Hreg Et]. apply negb_true_iff in Et.
      cbn [hold]. apply (block_child_never_returns ty a t ms' _ (plug c (Obj o)) Hreg Et).
      + apply in_elt.
      + now apply IH. }
  split; [exact Hplug|].
  intros [|fuel] before after (log & s & H); [discriminate H|].
  apply render_array_inv in H as (strs & Hmap & _).
  destruct (mapM_returns_each _ _ _ _ Hmap (plug c (Obj o)) (in_elt _ _ _)) as (g' & y & Hy).
  destruct (plug_block_path_obj c o Hc) as [o' Ho']. rewrite Ho' in Hy.
  apply (Hplug (S fuel)). rewrite Ho'. now exists g', y.
Qed.

Lemma marked_text_poisons_ancestors_witness :
  ~ returns_string (render 5 document_bold).
Proof.
  refine (proj1 (marked_text_poisons_ancestors
                  (Inside (HObj "document" None None None) [] []
                     (Inside (HObj "paragraph" None None None) [] [] Hole))
                  (mkFields "text" None None (Some "Hi <there>") (Some [bold]))
                  "Hi <there>" [bold] eq_refl eq_refl eq_refl eq_refl) 5).
Defined.

End RenderSafety.

(** ** The image URL builder: further properties *)

Module ImageMore.
Import Js JsFacts Image ImageSpec ImageFacts ImageAttrs.

Lemma loading_guard (s : string) :
  str_truthy (Some s) && includes [VStr "lazy"; VStr "eager"] (Some (VStr s))
  = (String.eqb s "lazy" || String.eqb s "eager").
Proof.
  cbn [str_truthy includes existsb strict_eqb]. rewrite orb_false_r.
  destruct (String.eqb_spec s EmptyString) as [->|]; reflexivity.
Qed.

Lemma get_app (o1 o2 : object) (k : string) :
  get (o1 ++ o2)%list k = match get o1 k with Some v => Some v | None => get o2 k end.
Proof.
  induction o1 as [|[k' v'] o1 IH]; cbn [app get]; [reflexivity|].
  destruct (String.eqb k' k); [reflexivity | exact IH].
Qed.

Lemma set_if_app (c : bool) (k : string) (v : value) (o : object) :
  set_if c k v o = (o ++ (if c then [(k, v)] else []))%list.
Proof. destruct c; cbn [set_if]; [reflexivity | now rewrite app_nil_r]. Qed.

(** The entries [attrs] receives, one optional entry per property. *)
Lemma attrs_of_entries (o : options) :
  attrs_of (OObject o)
  = ((match width o with
      | Some n => if Z.eqb n 0 then [] else [("width", VNum n)]
      | None => [] end)
     ++ (match height o with
         | Some n => if Z.eqb n 0 then [] else [("height", VNum n)]
         | None => [] end)
     ++ (match loading o with
         | Some s => if String.eqb s "lazy" || String.eqb s "eager"
                     then [("loading", VStr s)] else []
         | None => [] end)
     ++ (match class o with
         | Some s => if String.eqb s EmptyString then [] else [("class", VStr s)]
         | None => [] end))%list.
Proof.
  unfold attrs_of.
  destruct (width o) as [w|], (height o) as [h|], (loading o) as [l|], (class o) as [c|];
    rewrite ?set_if_app, ?loading_guard; cbn [num_truthy str_truthy];
    try destruct (Z.eqb w 0); try destruct (Z.eqb h 0);
    try destruct (String.eqb l "lazy" || String.eqb l "eager");
    try destruct (String.eqb c EmptyString);
    cbn [negb app]; reflexivity.
Qed.

(** X15: the returned [attrs] hold [width] and [height] exactly when the
    option is a number other than zero (negative ones included, and whether
    or not the source gets a dimensions segment), [loading] exactly when it
    is [lazy] or [eager], [class] exactly when it is a non-empty string, and
    nothing else; options that are not an object give empty [attrs]. *)
Theorem optimizeImage_attrs (base : string) (o : options) (k : string) :
  get (attrs (optimizeImage base (OObject o))) k = expected_attr o k
  /\ attrs (optimizeImage base OUndefined) = []
  /\ (forall b, attrs (optimizeImage base (OBool b)) = []).
Proof.
  split; [|split; [reflexivity | intros []; reflexivity]].
  unfold optimizeImage. cbn [arg_falsy attrs]. rewrite attrs_of_entries.
  unfold expected_attr.
  destruct (width o) as [w|]; [destruct (Z.eqb w 0)|];
    (destruct (height o) as [h|]; [destruct (Z.eqb h 0)|]);
    (destruct (loading o) as [l|];
     [destruct (String.eqb l "lazy" || String.eqb l "eager")|]);
    (destruct (class o) as [c|]; [destruct (String.eqb c EmptyString)|]);
    cbn [app get];
    repeat match goal with
           | |- context [String.eqb ?x k] =>
               destruct (String.eqb x k) eqn:E;
               [apply String.eqb_eq in E; subst k; cbn | clear E]
           end;
    reflexivity.
Qed.

Lemma filterParams_expected (o : options) :
  filterParams (OObject o) = expected_filters (bag o).
Proof.
  unfold filterParams, bag. destruct (filters o); [apply filterParams_of_expected | reflexivity].
Qed.

(** X16: when the options give both positive dimensions and at least one
    filter, the filter list follows the dimensions directly: the source is
    the base, [/m/], [{w}x{h}], [filters:] and the filters joined by colons,
    with nothing between the height and the word [filters]. *)
Theorem optimizeImage_dimensions_then_filters (base : string) (o : options) (w h : Z) :
  width o = Some w -> height o = Some h -> (0 < w)%Z -> (0 < h)%Z ->
  filterParams (OObject o) <> [] ->
  src (optimizeImage base (OObject o))
  = base ++ "/m/" ++ num_to_string w ++ "x" ++ num_to_string h
    ++ "filters:" ++ join ":" (filterParams (OObject o)).
Proof.
  intros Hw Hh Pw Ph Hf. rewrite optimizeImage_object_src.
  rewrite filterParams_expected in *. unfold dims_segment. rewrite Hw, Hh.
  apply Z.ltb_lt in Pw, Ph. rewrite Pw, Ph. cbn [andb].
  destruct (expected_filters (bag o)) as [|x fs]; [now contradiction Hf|].
  cbn [filters_segment]. now rewrite !append_assoc.
Qed.

Lemma optimizeImage_dimensions_then_filters_witness :
  src (optimizeImage "img" (OObject sized_blur)) = "img/m/100x200filters:blur(5)".
Proof.
  refine (optimizeImage_dimensions_then_filters "img" sized_blur 100 200
            eq_refl eq_refl _ _ _); [lia | lia | discriminate].
Defined.

Lemma get_Permutation (f f' : object) :
  NoDup (keys f) -> Permutation f f' -> forall k, get f k = get f' k.
Proof.
  intros Hnd Hp. induction Hp as [|[k1 v1] l l' Hp IH|[k1 v1] [k2 v2] l|l l' l'' H1 IH1 H2 IH2];
    intros k.
  - reflexivity.
  - cbn [keys map fst] in Hnd. inversion Hnd; subst. cbn [get].
    destruct (String.eqb k1 k); [reflexivity | now apply IH].
  - cbn [keys map fst] in Hnd. inversion Hnd as [|? ? Hnot _]; subst. cbn [get].
    destruct (String.eqb_spec k2 k) as [->|]; [|reflexivity].
    destruct (String.eqb_spec k1 k) as [->|]; [|reflexivity].
    exfalso. apply Hnot. now left.
  - rewrite (IH1 Hnd). apply IH2.
    apply (Permutation_NoDup (Permutation_map fst H1)). exact Hnd.
Qed.

(** X17: the order in which the filters are written in the options does
    not matter: reordering the entries of [filters] gives the same source
    and the same [attrs]. *)
Theorem filters_order_is_irrelevant (base : string) (o : options) (f f' : object) :
  filters o = Some f -> NoDup (keys f) -> Permutation f f' ->
  optimizeImage base (OObject (with_filters o f')) = optimizeImage base (OObject o).
Proof.
  intros Hf Hnd Hp.
  assert (Hparams : filterParams (OObject (with_filters o f')) = filterParams (OObject o)).
  { cbn [filterParams with_filters filters]. rewrite Hf. unfold filterParams_of.
    now rewrite !(get_Permutation f f' Hnd Hp). }
  unfold optimizeImage. cbn [arg_falsy]. rewrite Hparams. reflexivity.
Qed.

Lemma filters_order_is_irrelevant_witness :
  src (optimizeImage "img"
         (OObject (mkOptions None None None None
                     (Some [("format", VStr "png"); ("blur", VNum 5)]))))
  = "img/m/filters:blur(5):format(png)".
Proof.
  refine (eq_trans
            (f_equal src
               (filters_order_is_irrelevant "img"
                  (mkOptions None None None None
                     (Some [("blur", VNum 5); ("format", VStr "png")]))
                  [("blur", VNum 5); ("format", VStr "png")]
                  [("format", VStr "png"); ("blur", VNum 5)] eq_refl _ _)) _).
  - repeat constructor; cbn; intuition discriminate.
  - apply perm_swap.
  - reflexivity.
Defined.

Lemma strict_eqb_eq (a b : value) : strict_eqb a b = true -> a = b.
Proof.
  destruct a, b; cbn [strict_eqb]; intros H; try discriminate H.
  - apply String.eqb_eq in H. now subst.
  - apply Z.eqb_eq in H. now subst.
  - apply Bool.eqb_prop in H. now subst.
  - reflexivity.
Qed.

Lemma includes_cases (arr : list value) (x : option value) :
  includes arr x = true -> exists v, x = Some v /\ In v arr.
Proof.
  destruct x as [v|]; cbn [includes]; [|discriminate].
  intros H. apply existsb_exists in H as (y & Hin & Heq).
  apply strict_eqb_eq in Heq. subst y. now exists v.
Qed.

(** X18: the filter list never holds a rotation other than [rotate(90)],
    [rotate(180)] and [rotate(270)], nor a format other than
    [format(webp)], [format(png)] and [format(jpeg)], whatever the options
    hold. *)
Theorem filterParams_whitelist (a : options_arg) (s : string) :
  In s (filterParams a) ->
  (prefix "rotate(" s = true -> In s ["rotate(90)"; "rotate(180)"; "rotate(270)"])
  /\ (prefix "format(" s = true -> In s ["format(webp)"; "format(png)"; "format(jpeg)"]).
Proof.
  destruct a as [| |o]; cbn [filterParams]; try (intros []).
  destruct (filters o) as [f|]; [|intros []].
  unfold filterParams_of. rewrite !push_if_app. cbn [app]. intros H.
  repeat (apply in_app_or in H; destruct H as [H|H]);
    match type of H with
    | In _ (if ?c then _ else _) => destruct c eqn:Ec; [|destruct H]
    end;
    destruct H as [<-|[]].
  1-5: split; intros Hp; cbn in Hp; discriminate Hp.
  - apply andb_prop in Ec as [_ Ec]. apply includes_cases in Ec as (v & -> & Hin).
    split; [|intros Hp; cbn in Hp; discriminate Hp]. intros _.
    cbn [In] in Hin. destruct Hin as [<-|[<-|[<-|[]]]]; cbn; tauto.
  - apply andb_prop in Ec as [_ Ec]. apply includes_cases in Ec as (v & -> & Hin).
    split; [intros Hp; cbn in Hp; discriminate Hp|]. intros _.
    cbn [In] in Hin. destruct Hin as [<-|[<-|[<-|[]]]]; cbn; tauto.
Qed.

Lemma filterParams_whitelist_witness :
  In "rotate(90)" ["rotate(90)"; "rotate(180)"; "rotate(270)"].
Proof.
  refine (proj1 (filterParams_whitelist
                   (OObject (mkOptions None None None None (Some [("rotate", VNum 90)])))
                   "rotate(90)" _) eq_refl).
  now left.
Defined.

End ImageMore.

(** ** The renderer: text without [text], arrays inside arrays *)

Module RenderEdges.
Import Js JsFacts Run RunFacts RitchText Registry RegistryFacts RenderFacts.
Import Context ContextFacts Documents Examples RenderMore.
Local Open Scope run_scope.

(** X19: a node of type [text] that has no [text] property renders to the
    empty string and emits nothing, whatever its marks, attributes and
    content are; its marks are never looked at, so the call comes back. *)
Theorem text_node_without_text fuel (o : fields Node) :
  type o = "text" -> text o = None ->
  render (S fuel) (Obj o) = Some ([], Return EmptyString).
Proof.
  intros Hty Ht. rewrite render_text_obj by now rewrite Hty.
  unfold textResolver. now rewrite Ht.
Qed.

Lemma text_node_without_text_witness :
  render 1 (Obj (mkFields "text" None (Some [marked_a]) None (Some [bold])))
  = Some ([], Return EmptyString).
Proof.
  exact (text_node_without_text 0
           (mkFields "text" None (Some [marked_a]) None (Some [bold])) eq_refl eq_refl).
Defined.

(** X20: an array nested directly in an array handed to [render] is not
    rendered: whatever it holds, the outer array returns what it returns
    with the nested array taken out. *)
Theorem nested_array_is_dropped fuel (l1 l2 inner : list Node) :
  returned (render (S fuel) (Arr (l1 ++ Arr inner :: l2)))
  = returned (render (S fuel) (Arr (l1 ++ l2))).
Proof.
  rewrite !render_S. cbn [render_body].
  apply (same_children_insert (renderNode (render fuel)) l1 l2 (Arr inner)
           [no_resolver "undefined"]); [reflexivity|].
  intros ys ys' H. cbn. now rewrite H.
Qed.

Lemma mapM_objects fuel (items : list Node) :
  forallb is_object items = true ->
  mapM (renderNode (render fuel)) items = mapM (render (S fuel)) items.
Proof.
  induction items as [|x items IH]; [reflexivity|].
  cbn [forallb]. intros H. apply andb_prop in H as [Hx Hi].
  cbn [mapM]. rewrite (IH Hi).
  destruct x as [| |o]; try discriminate Hx. reflexivity.
Qed.

Lemma same_children_flatten fuel (l1 l2 inner : list Node) :
  forallb is_object inner = true ->
  same_children (render (S fuel)) (l1 ++ Arr inner :: l2) (l1 ++ inner ++ l2).
Proof.
  intros Hobj C. induction l1 as [|y l1 IH]; intros k k' Hk; cbn [app].
  - rewrite bind_mapM_cons, mapM_app, render_S. cbn [render_body].
    rewrite (mapM_objects _ _ Hobj), !bind_assoc.
    apply returned_bind; [reflexivity|]. intros a.
    rewrite bind_ret_l, bind_assoc.
    apply returned_bind; [reflexivity|]. intros b.
    rewrite bind_ret_l. apply Hk.
    now rewrite concat_all_cons, concat_all_app.
  - rewrite !bind_mapM_cons. apply returned_bind; [reflexivity|]. intros b.
    apply IH. intros ys ys' H. apply Hk. now rewrite !concat_all_cons, H.
Qed.

(** X21: an array of node objects nested in the [content] of a node is
    rendered in place: the node returns what it returns with the elements of
    the nested array written directly among its children. *)
Theorem nested_array_in_content_is_flattened fuel ty a t ms (l1 l2 inner : list Node) :
  forallb is_object inner = true ->
  returned (render (S (S fuel))
              (Obj (mkFields ty a (Some (l1 ++ Arr inner :: l2)%list) t ms)))
  = returned (render (S (S fuel))
                (Obj (mkFields ty a (Some (l1 ++ inner ++ l2)%list) t ms))).
Proof.
  intros Hobj.
  rewrite !(render_S (S fuel)). cbn [render_body renderNode type content].
  destruct (String.eqb ty "text") eqn:Et.
  - rewrite (resolvers_get_text _ _ Et). unfold textResolver. cbn [text marks].
    destruct t as [txt|]; [|reflexivity]. destruct ms as [ms|]; [|reflexivity].
    rewrite !(render_marked_text_never_returns (S fuel) _ txt ms); try reflexivity;
      exact Et.
  - destruct (resolvers_get (resolvers (render (S fuel))) ty) as [r|] eqn:Er; [|reflexivity].
    cbn [render_children]. rewrite !bind_assoc.
    apply (same_children_flatten fuel l1 l2 inner Hobj).
    intros ys ys' H. rewrite !bind_ret_l.
    rewrite (template_children r _ ys ys' (resolvers_get_template _ _ _ Et Er) H).
    now rewrite (template_content r ty a t ms (Some (l1 ++ Arr inner :: l2)%list)
                   (Some (l1 ++ inner ++ l2)%list) (Some ys')
                   (resolvers_get_template _ _ _ Et Er)).
Qed.

Lemma nested_array_in_content_is_flattened_witness :
  returned (render 3 (block "paragraph" None
                        [text_node "a" None; Arr [text_node "b" None; text_node "c" None]]))
  = Some (Return "<p >abc</p>").
Proof.
  refine (eq_trans
            (nested_array_in_content_is_flattened 1 "paragraph" None None None
               [text_node "a" None] [] [text_node "b" None; text_node "c" None] eq_refl) _).
  reflexivity.
Defined.

End RenderEdges.
